(** * Frontmatter statistics: the field index of [src/main.ts]

    A shallow embedding of the index-maintenance core of the plugin class
    [EnhancedFrontmatterStatsPlugin]: the flattener [flattenFrontmatter], the
    value statistics [updateValueStats], the four incremental handlers
    ([updateCacheForFile], [updateCacheOnDelete], [updateCacheOnRename],
    [updateCacheOnCreate], all through [addFileToCache]), [clearCache] and the
    read path [getFields].

    Modelling conventions.
    - The two private members [cache] and [lastUpdate] are the explicit
      [State]; every method takes a state and returns the next one.
    - [Date.now()] is an argument: the handlers read the clock once,
      [getFields] reads it at entry and again when it stores a rebuild.
    - The host ([this.app]) is the record [App]: the vault's markdown files and
      the metadata cache's answer for each file.
    - A [TFile] is the value (path, extension); owning lists hold such values.
    - Counts and times are JavaScript numbers holding integers: [Z].
    - A parsed header is its sequence of own entries in the order
      [Object.entries] enumerates them.
    - [fieldsMap] is a plain object created by [{}]: the model keeps its own
      entries in insertion order; a lookup [fieldsMap[key]] also sees the
      members inherited from [Object.prototype], and [Object.values] lists
      the entries whose key is a canonical array index first, by ascending
      index, then the others in insertion order.
    - A [TypeError] thrown inside the rebuild is the flag [threw] of the
      scan and [rejected] of the call: the promise of [getFields] rejects,
      nothing is stored, and the logs hold what happened before the throw.
    - Numeric header values are integers, rendered in decimal by [String].
    - The progress percentage is the exact quotient, a rational.

    Of the modal [StatsModal] the file embeds what computes: the paging of
    the file list ([renderFileList], [renderPagination]), [getNestedValue],
    [truncate] and the menu item that adds a field to the ignore list.
    A string is its sequence of characters; the page size is an integer;
    [in] sees own properties only (the keys of a record, the indices and the
    length of an array). *)

From Stdlib Require Import List String Ascii ZArith QArith Bool Lia.
From Stdlib Require Import DecimalString Permutation Sorted.
Import ListNotations.

Set Warnings "-register-all".

Local Open Scope string_scope.
Local Open Scope list_scope.
Local Open Scope Z_scope.

(** ** Parsed header values *)

(** What the host's YAML parser hands over: primitives, [null], arrays, and
    nested records.  A record is its entry sequence, in the order
    [Object.entries] enumerates it. *)
Inductive value : Type :=
| VString (s : string)
| VNumber (z : Z)
| VBoolean (b : bool)
| VNull
| VArray (items : list value)
| VObject (o : object)
with object : Type :=
| ONil
| OCons (key : string) (v : value) (rest : object).

Scheme value_mut := Induction for value Sort Prop
  with object_mut := Induction for object Sort Prop.

(** [Object.entries(obj)]. *)
Fixpoint entries (obj : object) : list (string * value) :=
  match obj with
  | ONil => []
  | OCons key v rest => (key, v) :: entries rest
  end.

Fixpoint object_of_entries (l : list (string * value)) : object :=
  match l with
  | [] => ONil
  | (key, v) :: rest => OCons key v (object_of_entries rest)
  end.

(** [typeof value === 'object' && value !== null && !Array.isArray(value)] *)
Definition isPlainObject (v : value) : bool :=
  match v with
  | VObject _ => true
  | _ => false
  end.

(** ** The flattener *)

(** [prefix ? `${prefix}.${key}` : key]; the empty string is falsy. *)
Definition fullKeyOf (prefix key : string) : string :=
  if String.eqb prefix EmptyString then key
  else (prefix ++ "." ++ key)%string.

(** [flattenFrontmatter(obj, prefix = '')]: one pass over the entries of
    [obj]; a plain object is flattened under its full key and its pairs are
    appended, anything else is pushed as a pair. *)
Fixpoint flattenFrontmatter (obj : object) (prefix : string)
  : list (string * value) :=
  match obj with
  | ONil => []
  | OCons key v rest =>
      let fullKey := fullKeyOf prefix key in
      (match v with
       | VObject o => flattenFrontmatter o fullKey
       | _ => [(fullKey, v)]
       end) ++ flattenFrontmatter rest prefix
  end.

(** *** The flattener as the specification words it

    Depth-first, entries in order; descend exactly into nested records; every
    other value (arrays included) is a leaf reached by the chain of keys above
    it; the emitted key is that chain joined with a dot. *)
Fixpoint leafPaths (obj : object) : list (list string * value) :=
  match obj with
  | ONil => []
  | OCons key v rest =>
      (match v with
       | VObject o => map (fun pv => (key :: fst pv, snd pv)) (leafPaths o)
       | _ => [([key], v)]
       end) ++ leafPaths rest
  end.

Definition dottedPath (p : list string) : string := String.concat "." p.

Definition flatten_spec (obj : object) : list (string * value) :=
  map (fun pv => (dottedPath (fst pv), snd pv)) (leafPaths obj).

(** No top-level key that holds a nested record is the empty string. *)
Fixpoint nestedKeysNonEmpty (obj : object) : Prop :=
  match obj with
  | ONil => True
  | OCons key v rest =>
      (isPlainObject v = true -> key <> EmptyString) /\
      nestedKeysNonEmpty rest
  end.

(** ** Host and plugin data *)

Record TFile : Type := { path : string; extension : string }.

(** [TAbstractFile] is a file or a folder; [file instanceof TFile]. *)
Inductive TAbstractFile : Type :=
| AFile (f : TFile)
| AFolder (folderPath : string).

(** [valueStats]: entries of [topValues] are (value, count), entries of
    [typeDistribution] are (type, count). *)
Record ValueStats : Type := {
  unique : Z;
  topValues : list (string * Z);
  typeDistribution : list (string * Z)
}.

Record FrontmatterField : Type := {
  name : string;
  count : Z;
  files : list TFile;
  valueStats : option ValueStats
}.

Record PluginSettings : Type := {
  pageSize : Z;
  ignoreFields : list string;
  cacheTTL : Z;
  analyzeValues : bool;
  showProgress : bool
}.

Definition DEFAULT_SETTINGS : PluginSettings :=
  {| pageSize := 50; ignoreFields := []; cacheTTL := 600;
     analyzeValues := false; showProgress := true |}.

(** The part of [CachedMetadata] the plugin reads. *)
Record CachedMetadata : Type := { frontmatter : option object }.

(** [this.app]: [vault.getMarkdownFiles()] and [metadataCache.getFileCache]. *)
Record App : Type := {
  getMarkdownFiles : list TFile;
  getFileCache : TFile -> option CachedMetadata
}.

(** [cache?.frontmatter] *)
Definition frontmatterOf (app : App) (file : TFile) : option object :=
  match getFileCache app file with
  | Some c => frontmatter c
  | None => None
  end.

(** The plugin's private members [cache] and [lastUpdate]. *)
Record State : Type := { cache : list FrontmatterField; lastUpdate : Z }.

Definition initialState : State := {| cache := []; lastUpdate := 0 |}.

(** [new Set(ignoreFields).has(key)] *)
Definition ignoreSetHas (settings : PluginSettings) (key : string) : bool :=
  existsb (String.eqb key) (ignoreFields settings).

(** [files.some(f => f.path === file.path)] *)
Definition hasPath (p : string) (l : list TFile) : bool :=
  existsb (fun f => String.eqb (path f) p) l.

(** ** [Array.prototype.sort] with a comparator

    The sort is stable: [x] moves behind [y] only when the comparator is
    positive on ([x], [y]). *)
Section Sort.
Context {A : Type} (cmp : A -> A -> Z).

Fixpoint sortInsert (x : A) (l : list A) : list A :=
  match l with
  | [] => [x]
  | y :: rest => if 0 <? cmp x y then y :: sortInsert x rest else x :: l
  end.

Fixpoint jsSort (l : list A) : list A :=
  match l with
  | [] => []
  | x :: rest => sortInsert x (jsSort rest)
  end.
End Sort.

(** [(a, b) => b.count - a.count] on field records and on top-value entries. *)
Definition byCountDesc (a b : FrontmatterField) : Z := count b - count a.
Definition byEntryCountDesc (a b : string * Z) : Z := snd b - snd a.

(** ** Value statistics *)

(** [String(value)]; array elements that are [null] join as the empty
    string. *)
Fixpoint jsString (v : value) : string :=
  match v with
  | VString s => s
  | VNumber z => NilZero.string_of_int (Z.to_int z)
  | VBoolean b => if b then "true" else "false"
  | VNull => "null"
  | VArray items =>
      String.concat ","
        (map (fun x => match x with
                       | VNull => EmptyString
                       | _ => jsString x
                       end) items)
  | VObject _ => "[object Object]"
  end.

(** [Array.isArray(value) ? 'array' : typeof value], then ['null'] for
    [null]. *)
Definition typeTag (v : value) : string :=
  match v with
  | VString _ => "string"
  | VNumber _ => "number"
  | VBoolean _ => "boolean"
  | VNull => "null"
  | VArray _ => "array"
  | VObject _ => "object"
  end.

(** [find] the first entry with this key and increment it in place. *)
Fixpoint incrementEntry (k : string) (l : list (string * Z))
  : list (string * Z) :=
  match l with
  | [] => []
  | (k', n) :: rest =>
      if String.eqb k' k then (k', n + 1) :: rest
      else (k', n) :: incrementEntry k rest
  end.

Definition hasEntry (k : string) (l : list (string * Z)) : bool :=
  existsb (fun e => String.eqb (fst e) k) l.

Definition updateValueStats (stats : ValueStats) (v : value) : ValueStats :=
  let type := typeTag v in
  let typeDistribution' :=
    if hasEntry type (typeDistribution stats)
    then incrementEntry type (typeDistribution stats)
    else typeDistribution stats ++ [(type, 1)] in
  if negb (String.eqb type "object") && negb (String.eqb type "array") then
    let valueStr := jsString v in
    if hasEntry valueStr (topValues stats) then
      {| unique := unique stats;
         topValues := incrementEntry valueStr (topValues stats);
         typeDistribution := typeDistribution' |}
    else
      let topValues' := topValues stats ++ [(valueStr, 1)] in
      {| unique := Z.of_nat (List.length topValues');
         topValues := topValues';
         typeDistribution := typeDistribution' |}
  else
    {| unique := unique stats;
       topValues := topValues stats;
       typeDistribution := typeDistribution' |}.

(** ** Incremental handlers *)

(** The body of the [map] in the changed and deleted handlers: the file is
    filtered out of the owning list and the count is the filtered length. *)
Definition withoutFile (p : string) (field : FrontmatterField)
  : FrontmatterField :=
  {| name := name field;
     count := Z.of_nat
                (List.length
                   (filter (fun f => negb (String.eqb (path f) p)) (files field)));
     files := filter (fun f => negb (String.eqb (path f) p)) (files field);
     valueStats := valueStats field |}.

(** [cache.map(...).filter(field => field.count > 0)] *)
Definition removeFile (p : string) (c : list FrontmatterField)
  : list FrontmatterField :=
  filter (fun field => 0 <? count field) (map (withoutFile p) c).

(** [this.cache.find(f => f.name === key)] *)
Definition findField (key : string) (c : list FrontmatterField)
  : option FrontmatterField :=
  find (fun f => String.eqb (name f) key) c.

(** A mutation of the record [find] returned: the first one of that name. *)
Fixpoint updateField (key : string) (g : FrontmatterField -> FrontmatterField)
  (c : list FrontmatterField) : list FrontmatterField :=
  match c with
  | [] => []
  | f :: rest =>
      if String.eqb (name f) key then g f :: rest
      else f :: updateField key g rest
  end.

(** [if (!field.files.some(...)) { field.files.push(file); field.count++ }] *)
Definition pushFile (file : TFile) (field : FrontmatterField)
  : FrontmatterField :=
  if hasPath (path file) (files field) then field
  else {| name := name field;
          count := count field + 1;
          files := files field ++ [file];
          valueStats := valueStats field |}.

(** One turn of the loop of [addFileToCache] for a key that is not ignored. *)
Definition addKey (file : TFile) (key : string) (c : list FrontmatterField)
  : list FrontmatterField :=
  let c1 :=
    match findField key c with
    | Some _ => c
    | None => c ++ [{| name := key; count := 0; files := [];
                       valueStats := None |}]
    end in
  updateField key (pushFile file) c1.

Definition addEntries (settings : PluginSettings) (file : TFile)
  (es : list (string * value)) (c : list FrontmatterField)
  : list FrontmatterField :=
  fold_left
    (fun c e => if ignoreSetHas settings (fst e) then c else addKey file (fst e) c)
    es c.

Definition addFileToCache (app : App) (settings : PluginSettings) (now : Z)
  (file : TFile) (s : State) : State :=
  match frontmatterOf app file with
  | None => s
  | Some fm =>
      {| cache := addEntries settings file
                    (flattenFrontmatter fm EmptyString) (cache s);
         lastUpdate := now |}
  end.

Definition updateCacheForFile (app : App) (settings : PluginSettings) (now : Z)
  (file : TFile) (s : State) : State :=
  if negb (String.eqb (extension file) "md") then s
  else addFileToCache app settings now file
         {| cache := removeFile (path file) (cache s);
            lastUpdate := lastUpdate s |}.

Definition updateCacheOnDelete (file : TAbstractFile) (s : State) : State :=
  match file with
  | AFile f =>
      if negb (String.eqb (extension f) "md") then s
      else {| cache := removeFile (path f) (cache s);
              lastUpdate := lastUpdate s |}
  | AFolder _ => s
  end.

(** [files.map(f => f.path === oldPath ? file : f)]; the count is kept. *)
Definition renameIn (file : TFile) (oldPath : string)
  (field : FrontmatterField) : FrontmatterField :=
  {| name := name field;
     count := count field;
     files := map (fun f => if String.eqb (path f) oldPath then file else f)
                  (files field);
     valueStats := valueStats field |}.

Definition updateCacheOnRename (file : TAbstractFile) (oldPath : string)
  (s : State) : State :=
  match file with
  | AFile f =>
      if negb (String.eqb (extension f) "md") then s
      else {| cache := map (renameIn f oldPath) (cache s);
              lastUpdate := lastUpdate s |}
  | AFolder _ => s
  end.

Definition updateCacheOnCreate (app : App) (settings : PluginSettings)
  (now : Z) (file : TAbstractFile) (s : State) : State :=
  match file with
  | AFile f =>
      if String.eqb (extension f) "md"
      then addFileToCache app settings now f s
      else s
  | AFolder _ => s
  end.

Definition clearCache (s : State) : State := {| cache := []; lastUpdate := 0 |}.

(** ** Property names of a plain object *)

(** The property names every object created by [{}] inherits from
    [Object.prototype]; each holds a function, [__proto__] the prototype
    itself: all truthy, none with a member [files]. *)
Definition objectPrototypeNames : list string :=
  ["constructor"; "__defineGetter__"; "__defineSetter__"; "hasOwnProperty";
   "__lookupGetter__"; "__lookupSetter__"; "isPrototypeOf";
   "propertyIsEnumerable"; "toString"; "valueOf"; "__proto__";
   "toLocaleString"].

Definition isInherited (key : string) : bool :=
  existsb (String.eqb key) objectPrototypeNames.

Definition isDigit (c : ascii) : bool :=
  let n := nat_of_ascii c in ((48 <=? n) && (n <=? 57))%nat.

Fixpoint digitsValue (s : string) (acc : N) : option N :=
  match s with
  | EmptyString => Some acc
  | String c rest =>
      if isDigit c
      then digitsValue rest (acc * 10 + (N_of_ascii c - 48))%N
      else None
  end.

(** The integer a property name denotes when it is a canonical array index
    (a decimal numeral without leading zero, below 2^32 - 1): the keys
    JavaScript enumerates first, in ascending order. *)
Definition integerKey (s : string) : option N :=
  match s with
  | EmptyString => None
  | String c rest =>
      if Ascii.eqb c "0" && negb (String.eqb rest EmptyString) then None
      else match digitsValue s 0 with
           | Some n => if (n <? 4294967295)%N then Some n else None
           | None => None
           end
  end.

(** ** The read path *)

(** [fieldsMap : Record<string, FrontmatterField>], created by [{}]: the own
    entries, in insertion order. *)
Definition FieldsMap : Type := list (string * FrontmatterField).

(** What [fieldsMap[key]] evaluates to: an own record, a member inherited
    from [Object.prototype], or [undefined]. *)
Inductive Property : Type :=
| OwnRecord (field : FrontmatterField)
| InheritedMember
| Undefined.

(** [fieldsMap[key]] *)
Definition lookupField (key : string) (m : FieldsMap) : Property :=
  match find (fun e => String.eqb (fst e) key) m with
  | Some e => OwnRecord (snd e)
  | None => if isInherited key then InheritedMember else Undefined
  end.

(** A mutation of [fieldsMap[key]]. *)
Fixpoint updateEntry (key : string)
  (g : FrontmatterField -> FrontmatterField) (m : FieldsMap) : FieldsMap :=
  match m with
  | [] => []
  | (k, f) :: rest =>
      if String.eqb k key then (k, g f) :: rest
      else (k, f) :: updateEntry key g rest
  end.

(** The own entries filed under an array index, with that index. *)
Definition integerEntries (m : FieldsMap) : list (N * FrontmatterField) :=
  flat_map (fun e => match integerKey (fst e) with
                     | Some i => [(i, snd e)]
                     | None => []
                     end) m.

Definition byIndexAsc (a b : N * FrontmatterField) : Z :=
  Z.of_N (fst a) - Z.of_N (fst b).

Definition isStringKey (e : string * FrontmatterField) : bool :=
  match integerKey (fst e) with
  | Some _ => false
  | None => true
  end.

(** [Object.values(fieldsMap)]: the records under array indices by ascending
    index, then the others in insertion order. *)
Definition objectValues (m : FieldsMap) : list FrontmatterField :=
  map snd (jsSort byIndexAsc (integerEntries m)) ++
  map snd (filter isStringKey m).

Definition emptyStats : ValueStats :=
  {| unique := 0; topValues := []; typeDistribution := [] |}.

(** The guarded block of the rebuild loop: count, owner and, under value
    analysis, the statistics of the record. *)
Definition countFile (settings : PluginSettings) (file : TFile) (v : value)
  (field : FrontmatterField) : FrontmatterField :=
  if hasPath (path file) (files field) then field
  else {| name := name field;
          count := count field + 1;
          files := files field ++ [file];
          valueStats :=
            if analyzeValues settings
            then option_map (fun st => updateValueStats st v) (valueStats field)
            else valueStats field |}.

(** One turn of the inner loop of the rebuild; [None] is a [TypeError].
    [!fieldsMap[key]] holds only when the lookup is [undefined]; an
    inherited member is truthy, so no record is created for it, and reading
    [fieldsMap[key].files.some] then throws. *)
Definition scanEntry (settings : PluginSettings) (file : TFile)
  (m : FieldsMap) (e : string * value) : option FieldsMap :=
  let key := fst e in
  if ignoreSetHas settings key then Some m
  else
    match lookupField key m with
    | OwnRecord _ =>
        Some (updateEntry key (countFile settings file (snd e)) m)
    | Undefined =>
        Some (updateEntry key (countFile settings file (snd e))
                (m ++ [(key, {| name := key; count := 0; files := [];
                                valueStats := if analyzeValues settings
                                              then Some emptyStats
                                              else None |})]))
    | InheritedMember => None
    end.

(** The inner loop over the flattened entries of one header. *)
Fixpoint scanEntries (settings : PluginSettings) (file : TFile)
  (es : list (string * value)) (m : FieldsMap) : option FieldsMap :=
  match es with
  | [] => Some m
  | e :: rest =>
      match scanEntry settings file m e with
      | Some m' => scanEntries settings file rest m'
      | None => None
      end
  end.

(** [(processedFiles / totalFiles) * 100] *)
Definition percentage (processedFiles totalFiles : Z) : Q :=
  ((inject_Z processedFiles / inject_Z totalFiles) * inject_Z 100)%Q.

(** The locals of the rebuild loop, with two observation logs (the files
    handed to [getFileCache] and the arguments of the progress callback) and
    whether the loop was left by a [TypeError]. *)
Record Scan : Type := {
  fieldsMap : FieldsMap;
  processedFiles : Z;
  visited : list TFile;
  reported : list Q;
  threw : bool
}.

(** One turn of the outer loop; [callback] tells whether [progressCallback]
    was supplied.  After a throw no further turn runs; a throw in the inner
    loop comes after the lookup of the file and before its progress call. *)
Definition scanFile (app : App) (settings : PluginSettings) (callback : bool)
  (totalFiles : Z) (sc : Scan) (file : TFile) : Scan :=
  if threw sc then sc
  else
    match frontmatterOf app file with
    | None =>
        let processed := processedFiles sc + 1 in
        {| fieldsMap := fieldsMap sc;
           processedFiles := processed;
           visited := visited sc ++ [file];
           reported := if callback
                       then reported sc ++ [percentage processed totalFiles]
                       else reported sc;
           threw := false |}
    | Some fm =>
        match scanEntries settings file
                (flattenFrontmatter fm EmptyString) (fieldsMap sc) with
        | Some m =>
            let processed := processedFiles sc + 1 in
            {| fieldsMap := m;
               processedFiles := processed;
               visited := visited sc ++ [file];
               reported := if callback && showProgress settings
                           then reported sc ++ [percentage processed totalFiles]
                           else reported sc;
               threw := false |}
        | None =>
            {| fieldsMap := fieldsMap sc;
               processedFiles := processedFiles sc;
               visited := visited sc ++ [file];
               reported := reported sc;
               threw := true |}
        end
    end.

Definition scanAll (app : App) (settings : PluginSettings) (callback : bool)
  : Scan :=
  let markdownFiles := getMarkdownFiles app in
  fold_left
    (scanFile app settings callback (Z.of_nat (List.length markdownFiles)))
    markdownFiles
    {| fieldsMap := []; processedFiles := 0; visited := []; reported := [];
       threw := false |}.

(** [topValues.sort((a, b) => b.count - a.count).slice(0, 5)] *)
Definition trimTopValues (field : FrontmatterField) : FrontmatterField :=
  match valueStats field with
  | Some st =>
      {| name := name field;
         count := count field;
         files := files field;
         valueStats :=
           Some {| unique := unique st;
                   topValues := firstn 5 (jsSort byEntryCountDesc (topValues st));
                   typeDistribution := typeDistribution st |} |}
  | None => field
  end.

(** What a rebuild stores: the scanned records, trimmed under value analysis,
    sorted by count. *)
Definition rebuiltFields (settings : PluginSettings) (m : FieldsMap)
  : list FrontmatterField :=
  let m' := if analyzeValues settings
            then map (fun e => (fst e, trimTopValues (snd e))) m
            else m in
  jsSort byCountDesc (objectValues m').

(** A call of [getFields]: the sequence it resolves to, the state it leaves,
    the files it looked up, the values it passed to the callback, and whether
    its promise rejects instead of resolving; a rejected call returns no
    record. *)
Record GetFieldsRun : Type := {
  returned : list FrontmatterField;
  after : State;
  scanned : list TFile;
  progress : list Q;
  rejected : bool
}.

(** [getFields(progressCallback?)]; [now] is the clock at the validity test,
    [now'] the clock when a rebuild is stored.  A throw in the loop leaves
    before the two assignments: [cache] and [lastUpdate] stay. *)
Definition getFields (app : App) (settings : PluginSettings) (callback : bool)
  (now now' : Z) (s : State) : GetFieldsRun :=
  if (0 <? Z.of_nat (List.length (cache s)))
     && (now - lastUpdate s <? cacheTTL settings * 1000)
  then {| returned := cache s; after := s; scanned := []; progress := [];
          rejected := false |}
  else
    let sc := scanAll app settings callback in
    if threw sc
    then {| returned := []; after := s; scanned := visited sc;
            progress := reported sc; rejected := true |}
    else
      let fields := rebuiltFields settings (fieldsMap sc) in
      {| returned := fields;
         after := {| cache := fields; lastUpdate := now' |};
         scanned := visited sc;
         progress := reported sc;
         rejected := false |}.

(** ** Events *)

(** What can happen to the plugin between two observations: the four host
    notifications, a read, and an explicit invalidation.  A notification
    carries the host as it is when the handler runs. *)
Inductive Event : Type :=
| Changed (app : App) (now : Z) (file : TFile)
| Deleted (file : TAbstractFile)
| Renamed (file : TAbstractFile) (oldPath : string)
| Created (app : App) (now : Z) (file : TAbstractFile)
| Read (app : App) (callback : bool) (now now' : Z)
| Cleared.

Definition handle (settings : PluginSettings) (s : State) (e : Event) : State :=
  match e with
  | Changed app now file => updateCacheForFile app settings now file s
  | Deleted file => updateCacheOnDelete file s
  | Renamed file oldPath => updateCacheOnRename file oldPath s
  | Created app now file => updateCacheOnCreate app settings now file s
  | Read app callback now now' => after (getFields app settings callback now now' s)
  | Cleared => clearCache s
  end.

Definition run (settings : PluginSettings) (s : State) (es : list Event)
  : State :=
  fold_left (handle settings) es s.

(** The states the plugin can be in while its settings stay within [ok]. *)
Inductive reachableUnder (ok : PluginSettings -> Prop) : State -> Prop :=
| reachable_initial : reachableUnder ok initialState
| reachable_step (s : State) (settings : PluginSettings) (e : Event) :
    reachableUnder ok s ->
    ok settings ->
    reachableUnder ok (handle settings s e).

(** Reachable while the ignore list stays [ignore]; the other settings may
    change from one step to the next. *)
Definition reachable (ignore : list string) : State -> Prop :=
  reachableUnder (fun settings => ignoreFields settings = ignore).



(** ** Properties of records and indexes *)

(** [documentCount] is the size of the owning list. *)
Definition counted (r : FrontmatterField) : Prop :=
  count r = Z.of_nat (List.length (files r)).

(** No path occurs twice in the owning list. *)
Definition distinctOwners (r : FrontmatterField) : Prop :=
  NoDup (map path (files r)).

Definition notIgnored (ignore : list string) (r : FrontmatterField) : Prop :=
  ~ In (name r) ignore.

(** Sorted by count, largest first. *)
Definition descending (l : list FrontmatterField) : Prop :=
  Sorted (fun a b => count b <= count a) l.

(** The record [find] returns for [key] lists [file]. *)
Definition owns (c : list FrontmatterField) (key : string) (file : TFile)
  : Prop :=
  exists r, findField key c = Some r /\ hasPath (path file) (files r) = true.

Definition mapHolds (P : FrontmatterField -> Prop) (m : FieldsMap) : Prop :=
  Forall (fun e => P (snd e)) m.

(** ** Agreement of an index with a collection *)

(** The part of a record the invariants and the equivalence speak about. *)
Definition shape (r : FrontmatterField) : string * Z * list TFile :=
  (name r, count r, files r).

Definition sameShape (c c' : list FrontmatterField) : Prop :=
  map shape c = map shape c'.

(** An entry of [fieldsMap] as [Object.values] and the comparison of two
    rebuilds see it: its key and the shape of its record. *)
Definition entryShape (e : string * FrontmatterField)
  : string * (string * Z * list TFile) :=
  (fst e, shape (snd e)).

(** Every entry of [fieldsMap] is filed under the name of its record. *)
Definition keyedByName (m : FieldsMap) : Prop :=
  Forall (fun e => name (snd e) = fst e) m.

(** The documents of a collection added one after the other. *)
Definition addAll (app : App) (settings : PluginSettings) (now : Z)
  (fs : list TFile) (s : State) : State :=
  fold_left (fun s f => addFileToCache app settings now f s) fs s.

(** [path] is an owner of field [key] in the index. *)
Definition owner (c : list FrontmatterField) (key p : string) : Prop :=
  exists r, In r c /\ name r = key /\ In p (map path (files r)).

(** One record per name; every record counted, without repeated or missing
    owners. *)
Definition tidy (c : list FrontmatterField) : Prop :=
  NoDup (map name c) /\
  Forall counted c /\
  Forall distinctOwners c /\
  Forall (fun r => files r <> []) c.

(** The flattened keys of a document's header that are not ignored. *)
Definition keysOf (app : App) (settings : PluginSettings) (file : TFile)
  : list string :=
  match frontmatterOf app file with
  | None => []
  | Some fm =>
      filter (fun k => negb (ignoreSetHas settings k))
             (map fst (flattenFrontmatter fm EmptyString))
  end.

(** The document declares no field under a name inherited from
    [Object.prototype]. *)
Definition ordinaryFile (app : App) (settings : PluginSettings) (file : TFile)
  : bool :=
  forallb (fun k => negb (isInherited k)) (keysOf app settings file).

(** No markdown document of the collection does. *)
Definition ordinaryNames (app : App) (settings : PluginSettings) : bool :=
  forallb (ordinaryFile app settings) (getMarkdownFiles app).

(** No own entry of [fieldsMap] is filed under an inherited name. *)
Definition ownNames (m : FieldsMap) : Prop :=
  Forall (fun e => isInherited (fst e) = false) m.

(** No markdown document declares a field under an array index. *)
Definition stringNames (app : App) (settings : PluginSettings) : bool :=
  forallb (fun f => forallb (fun k => match integerKey k with
                                      | Some _ => false
                                      | None => true
                                      end)
                      (keysOf app settings f))
          (getMarkdownFiles app).

(** The markdown document at [path] declares field [key]. *)
Definition declares (app : App) (settings : PluginSettings) (key p : string)
  : Prop :=
  exists f, In f (getMarkdownFiles app) /\ path f = p /\
            In key (keysOf app settings f).

(** The index holds exactly what the collection declares. *)
Definition represents (app : App) (settings : PluginSettings)
  (c : list FrontmatterField) : Prop :=
  tidy c /\ forall key p, owner c key p <-> declares app settings key p.

(** Same records, same counts, same owning sets, ignoring order. *)
Definition covers (c1 c2 : list FrontmatterField) : Prop :=
  forall r1, In r1 c1 ->
    exists r2, In r2 c2 /\ name r2 = name r1 /\ count r2 = count r1 /\
               forall p, In p (map path (files r1)) <-> In p (map path (files r2)).

Definition sameIndex (c1 c2 : list FrontmatterField) : Prop :=
  covers c1 c2 /\ covers c2 c1.

(** What a notification about a markdown document means for the collection:
    [hostStep settings app e app'] says that the host went from [app] to
    [app'] and sent [e]. *)
Inductive hostStep (settings : PluginSettings) : App -> Event -> App -> Prop :=
| host_created app app' now f :
    extension f = "md" ->
    (forall key p, declares app' settings key p <->
       declares app settings key p \/
       (p = path f /\ In key (keysOf app' settings f))) ->
    hostStep settings app (Created app' now (AFile f)) app'
| host_changed app app' now f :
    extension f = "md" ->
    (forall key p, declares app' settings key p <->
       (declares app settings key p /\ p <> path f) \/
       (p = path f /\ In key (keysOf app' settings f))) ->
    hostStep settings app (Changed app' now f) app'
| host_deleted app app' f :
    extension f = "md" ->
    (forall key p, declares app' settings key p <->
       declares app settings key p /\ p <> path f) ->
    hostStep settings app (Deleted (AFile f)) app'
| host_renamed app app' f oldPath :
    extension f = "md" ->
    (forall key, ~ declares app settings key (path f)) ->
    (forall key p, declares app' settings key p <->
       (declares app settings key p /\ p <> oldPath) \/
       (p = path f /\ declares app settings key oldPath)) ->
    hostStep settings app (Renamed (AFile f) oldPath) app'.



(** [from + 1, ..., from + n]: the values [processedFiles] takes in a scan. *)
Fixpoint countUp (from : Z) (n : nat) : list Z :=
  match n with
  | O => []
  | S n' => (from + 1) :: countUp (from + 1) n'
  end.

(** ** The statistics modal *)

(** [Array.prototype.slice(start, end)] on integer arguments: a negative
    argument counts from the end, both are clamped to the array. *)
Definition jsSlice {A : Type} (l : list A) (start finish : Z) : list A :=
  let len := Z.of_nat (List.length l) in
  let k := if start <? 0 then Z.max (len + start) 0 else Z.min start len in
  let final := if finish <? 0 then Z.max (len + finish) 0
               else Z.min finish len in
  firstn (Z.to_nat (final - k)) (skipn (Z.to_nat k) l).

(** The files [renderFileList] lists on page [currentPage]. *)
Definition paginatedFiles (fs : list TFile) (currentPage pageSize : Z)
  : list TFile :=
  let start := currentPage * pageSize in
  let finish := start + pageSize in
  jsSlice fs start finish.

(** [Math.ceil(length / pageSize)] for a page size other than zero. *)
Definition totalPages (len pageSize : Z) : Z := - ((- len) / pageSize).

(** [renderPagination] draws nothing unless the files exceed one page. *)
Definition showsPagination (len pageSize : Z) : bool :=
  negb (len <=? pageSize).

Definition showsPrevious (currentPage : Z) : bool := 0 <? currentPage.

Definition showsNext (len pageSize currentPage : Z) : bool :=
  currentPage <? totalPages len pageSize - 1.

Inductive PageButton : Type := PreviousButton | NextButton.

(** A click on a pagination button; a button that is not drawn cannot be
    clicked, so the page stays. *)
Definition press (len pageSize currentPage : Z) (b : PageButton) : Z :=
  if showsPagination len pageSize then
    match b with
    | PreviousButton =>
        if showsPrevious currentPage then currentPage - 1 else currentPage
    | NextButton =>
        if showsNext len pageSize currentPage then currentPage + 1
        else currentPage
    end
  else currentPage.

(** [truncate(text, maxLength)] for a length that is not negative. *)
Definition truncate (text : string) (maxLength : nat) : string :=
  if (maxLength <? String.length text)%nat
  then (substring 0 maxLength text ++ "...")%string
  else text.

(** [path.split('.')] *)
Fixpoint splitDots (s : string) : list string :=
  match s with
  | EmptyString => [EmptyString]
  | String c rest =>
      if Ascii.eqb c "." then EmptyString :: splitDots rest
      else match splitDots rest with
           | h :: t => String c h :: t
           | [] => [String c EmptyString]
           end
  end.

(** The array index a property name denotes: a canonical decimal numeral
    below 2^32 - 1. *)
Definition arrayIndex (s : string) : option nat :=
  match s with
  | EmptyString => None
  | String c rest =>
      if Ascii.eqb c "0" && negb (String.eqb rest EmptyString) then None
      else match digitsValue s 0 with
           | Some n => if (n <? 4294967295)%N then Some (N.to_nat n) else None
           | None => None
           end
  end.

(** [acc && typeof acc === 'object' && part in acc ? acc[part] : undefined];
    [None] is [undefined].  Own properties only: the keys of a record, the
    indices and the length of an array. *)
Definition getProperty (acc : value) (part : string) : option value :=
  match acc with
  | VObject o =>
      option_map snd (find (fun e => String.eqb (fst e) part) (entries o))
  | VArray items =>
      if String.eqb part "length"
      then Some (VNumber (Z.of_nat (List.length items)))
      else match arrayIndex part with
           | Some i => nth_error items i
           | None => None
           end
  | _ => None
  end.

(** [getNestedValue(obj, path)] *)
Definition getNestedValue (obj : object) (p : string) : option value :=
  fold_left
    (fun acc part => match acc with
                     | Some v => getProperty v part
                     | None => None
                     end)
    (splitDots p) (Some (VObject obj)).

(** The menu item "Add to ignore list" of a table row: the name is pushed on
    the ignore list, the cache is cleared and the row leaves the table. *)
Definition addToIgnoreList (field : FrontmatterField)
  (settings : PluginSettings) (s : State) (shown : list FrontmatterField)
  : PluginSettings * State * list FrontmatterField :=
  ({| pageSize := pageSize settings;
      ignoreFields := ignoreFields settings ++ [name field];
      cacheTTL := cacheTTL settings;
      analyzeValues := analyzeValues settings;
      showProgress := showProgress settings |},
   clearCache s,
   filter (fun f => negb (String.eqb (name f) (name field))) shown).

(** ** Vocabulary for the value statistics and the header lookup *)

Definition sumCounts (l : list (string * Z)) : Z :=
  fold_right (fun e acc => snd e + acc) 0 l.

(** The values [updateValueStats] renders: everything but arrays and
    records. *)
Definition isRendered (v : value) : bool :=
  match v with
  | VArray _ | VObject _ => false
  | _ => true
  end.

(** The statistics of a sequence of values folded in from nothing. *)
Definition statsOf (vs : list value) : ValueStats :=
  fold_left updateValueStats vs emptyStats.

Fixpoint hasDot (s : string) : bool :=
  match s with
  | EmptyString => false
  | String c rest => Ascii.eqb c "." || hasDot rest
  end.

Fixpoint keysOfObject (o : object) : list string :=
  match o with
  | ONil => []
  | OCons key _ rest => key :: keysOfObject rest
  end.

(** A parsed record as the host delivers it: in every record, nested ones
    included, the keys are distinct; and here, no key contains a dot. *)
Fixpoint plainKeys (o : object) : Prop :=
  match o with
  | ONil => True
  | OCons key v rest =>
      hasDot key = false /\
      ~ In key (keysOfObject rest) /\
      match v with VObject o' => plainKeys o' | _ => True end /\
      plainKeys rest
  end.

(** The count filed under [k], zero when there is no entry. *)
Definition entryCount (k : string) (l : list (string * Z)) : Z :=
  match find (fun e => String.eqb (fst e) k) l with
  | Some e => snd e
  | None => 0
  end.

(** The statistics of a record agree with its count. *)
Definition statsSound (r : FrontmatterField) : Prop :=
  exists st,
    valueStats r = Some st /\
    sumCounts (typeDistribution st) = count r /\
    sumCounts (topValues st) <= count r /\
    Z.of_nat (List.length (topValues st)) <= unique st /\
    Forall (fun e => 0 < snd e) (topValues st).

(** The top-values list as [getFields] leaves it: at most five entries,
    largest count first. *)
Definition topTrimmed (r : FrontmatterField) : Prop :=
  forall st, valueStats r = Some st ->
    (List.length (topValues st) <= 5)%nat /\
    Sorted (fun a b => snd b <= snd a) (topValues st).

(** ** Sample vaults *)

Definition mdFile (p : string) : TFile := {| path := p; extension := "md" |}.

Definition header (es : list (string * value)) : option CachedMetadata :=
  Some {| frontmatter := Some (object_of_entries es) |}.

Definition noHeader : option CachedMetadata := Some {| frontmatter := None |}.

(** A vault of markdown documents given as (path, metadata) pairs. *)
Definition vaultOf (docs : list (string * option CachedMetadata)) : App :=
  {| getMarkdownFiles := map (fun d => mdFile (fst d)) docs;
     getFileCache := fun f =>
       match find (fun d => String.eqb (fst d) (path f)) docs with
       | Some d => snd d
       | None => None
       end |}.

(** Defaults with value analysis switched on. *)
Definition analysing : PluginSettings :=
  {| pageSize := 50; ignoreFields := []; cacheTTL := 600;
     analyzeValues := true; showProgress := true |}.

(** Defaults with the progress bar switched off. *)
Definition quiet : PluginSettings :=
  {| pageSize := 50; ignoreFields := []; cacheTTL := 600;
     analyzeValues := false; showProgress := false |}.

(** Defaults ignoring the field [tags]. *)
Definition ignoringTags : PluginSettings :=
  {| pageSize := 50; ignoreFields := ["tags"]; cacheTTL := 600;
     analyzeValues := false; showProgress := true |}.

(** A header whose only key is the empty string, holding [{ a: 1 }]. *)
Definition emptyKeyHeader : object :=
  OCons EmptyString (VObject (OCons "a" (VNumber 1) ONil)) ONil.

(** [{ tags: ["x", "y"], author: { name: "Bob" } }] *)
Definition bobHeader : object :=
  OCons "tags" (VArray [VString "x"; VString "y"])
    (OCons "author" (VObject (OCons "name" (VString "Bob") ONil)) ONil).

(** The three-document scenario: A and B carry headers, C has none. *)
Definition vaultABC : App :=
  vaultOf [("A.md", Some {| frontmatter := Some bobHeader |});
           ("B.md", header [("tags", VArray [VString "z"])]);
           ("C.md", noHeader)].

Definition statusA : App :=
  vaultOf [("A.md", header [("status", VString "done")])].

Definition statusAB : App :=
  vaultOf [("A.md", header [("status", VString "done")]);
           ("B.md", header [("status", VString "done")])].

Definition xAB : App :=
  vaultOf [("A.md", header [("x", VNumber 1)]);
           ("B.md", header [("x", VNumber 2)])].

Definition xyA : App :=
  vaultOf [("A.md", header [("x", VNumber 1); ("y", VNumber 1)])].

Definition xyAB : App :=
  vaultOf [("A.md", header [("x", VNumber 1); ("y", VNumber 1)]);
           ("B.md", header [("y", VNumber 1)])].

(** One document with a header, one without. *)
Definition xA_C : App :=
  vaultOf [("A.md", header [("x", VNumber 1)]); ("C.md", noHeader)].

Definition onlyC : App := vaultOf [("C.md", noHeader)].

(** The scenario of the specification: three documents, A renamed to A2,
    then B deleted. *)
Definition vaultA2BC : App :=
  vaultOf [("A2.md", Some {| frontmatter := Some bobHeader |});
           ("B.md", header [("tags", VArray [VString "z"])]);
           ("C.md", noHeader)].

Definition vaultA2C : App :=
  vaultOf [("A2.md", Some {| frontmatter := Some bobHeader |});
           ("C.md", noHeader)].

Definition renameThenDelete : list (Event * App) :=
  [(Renamed (AFile (mdFile "A2.md")) "A.md", vaultA2BC);
   (Deleted (AFile (mdFile "B.md")), vaultA2C)].

(** Five documents: [status] is done in three, pending in two. *)
Definition statusVault : App :=
  vaultOf [("1.md", header [("status", VString "done")]);
           ("2.md", header [("status", VString "pending")]);
           ("3.md", header [("status", VString "done")]);
           ("4.md", header [("status", VString "pending")]);
           ("5.md", header [("status", VString "done")])].

(** The index after a first read of the three-document vault. *)
Definition populatedABC : State :=
  after (getFields vaultABC DEFAULT_SETTINGS false 1000 1000 initialState).

(** A header key that names a member of [Object.prototype], in the first of
    two documents. *)
Definition constructorVault : App :=
  vaultOf [("A.md", header [("constructor", VNumber 1)]);
           ("B.md", header [("x", VNumber 1)])].

(** A field named by an array index, declared after a field named by a
    word. *)
Definition sevenVault : App :=
  vaultOf [("A.md", header [("b", VNumber 1)]);
           ("B.md", header [("7", VNumber 2)])].

(** Field names that are array indices, declared out of numeric order, next
    to names that are not ([07] has a leading zero). *)
Definition indexNamesVault : App :=
  vaultOf [("A.md", header [("b", VNumber 1); ("10", VNumber 1);
                            ("07", VNumber 1)]);
           ("B.md", header [("9", VNumber 1)])].

(** One document whose header has the single key [key]. *)
Definition oneKeyVault (key : string) : App :=
  vaultOf [("A.md", header [(key, VNumber 1)])].

(** Defaults ignoring the field [constructor]. *)
Definition ignoringConstructor : PluginSettings :=
  {| pageSize := 50; ignoreFields := ["constructor"]; cacheTTL := 600;
     analyzeValues := false; showProgress := true |}.

(** The index after a first read of the one-document vault [statusA]. *)
Definition populatedStatusA : State :=
  after (getFields statusA DEFAULT_SETTINGS false 1000 1000 initialState).

(** Five files, for a file list of three pages of two. *)
Definition fiveFiles : list TFile :=
  [mdFile "1.md"; mdFile "2.md"; mdFile "3.md"; mdFile "4.md"; mdFile "5.md"].

(** * Properties *)

(** ** The flattener *)

Lemma append_assoc (a b c : string) : ((a ++ b) ++ c = a ++ (b ++ c))%string.
Proof. induction a as [|ch a IH]; simpl; [reflexivity | now rewrite IH]. Qed.

Lemma append_nonempty_l (a b : string) :
  a <> EmptyString -> (a ++ b)%string <> EmptyString.
Proof. destruct a; simpl; [congruence | discriminate]. Qed.

Lemma fullKeyOf_top (key : string) : fullKeyOf EmptyString key = key.
Proof. reflexivity. Qed.

Lemma fullKeyOf_nested (prefix key : string) :
  prefix <> EmptyString -> fullKeyOf prefix key = (prefix ++ "." ++ key)%string.
Proof.
  intros H. unfold fullKeyOf.
  destruct (String.eqb_spec prefix EmptyString); [contradiction | reflexivity].
Qed.

Lemma leafPaths_nonempty (obj : object) :
  forall pv, In pv (leafPaths obj) -> fst pv <> [].
Proof.
  induction obj as [|key v rest IH]; simpl; [tauto|].
  intros pv Hin. apply in_app_or in Hin. destruct Hin as [Hin | Hin]; [|auto].
  destruct v; simpl in Hin;
    try (destruct Hin as [<- | []]; simpl; discriminate).
  apply in_map_iff in Hin. destruct Hin as [q [<- _]]. simpl. discriminate.
Qed.

Lemma dottedPath_cons (key : string) (p : list string) :
  p <> [] -> dottedPath (key :: p) = (key ++ "." ++ dottedPath p)%string.
Proof. destruct p; [congruence | reflexivity]. Qed.

(** Below a non-empty prefix the flattener emits prefix, dot, joined path. *)
Lemma flattenFrontmatter_nested (obj : object) :
  forall prefix, prefix <> EmptyString ->
    flattenFrontmatter obj prefix =
    map (fun pv => ((prefix ++ "." ++ dottedPath (fst pv))%string, snd pv))
        (leafPaths obj).
Proof.
  induction obj using object_mut with
    (P := fun v => forall o, v = VObject o ->
            forall prefix, prefix <> EmptyString ->
            flattenFrontmatter o prefix =
            map (fun pv => ((prefix ++ "." ++ dottedPath (fst pv))%string, snd pv))
                (leafPaths o)); try discriminate.
  - intros o' [= <-]. exact IHobj.
  - reflexivity.
  - intros prefix Hp. simpl. rewrite map_app, <- IHobj0 by assumption.
    f_equal. rewrite fullKeyOf_nested by assumption.
    destruct v; try reflexivity.
    rewrite (IHobj o eq_refl) by (apply append_nonempty_l; assumption).
    rewrite map_map. apply map_ext_in. intros pv Hin. simpl.
    rewrite dottedPath_cons by (eapply leafPaths_nonempty; eassumption).
    now rewrite append_assoc.
Qed.

(** X19: on every header whose top-level keys holding a nested record are
    non-empty, the flattener is the depth-first traversal in entry order that
    descends exactly into nested records, treats every other value (arrays
    included) as a leaf and names a leaf by its chain of keys joined with
    dots. *)
Theorem flattenFrontmatter_dotted_paths (obj : object) :
  nestedKeysNonEmpty obj ->
  flattenFrontmatter obj EmptyString = flatten_spec obj.
Proof.
  unfold flatten_spec.
  induction obj as [|key v rest IH]; simpl; [reflexivity|].
  intros [Hkey Hrest]. rewrite map_app, <- IH by assumption. f_equal.
  rewrite fullKeyOf_top.
  destruct v; try reflexivity.
  rewrite flattenFrontmatter_nested by (apply Hkey; reflexivity).
  rewrite map_map. apply map_ext_in. intros pv Hin. simpl.
  now rewrite dottedPath_cons by (eapply leafPaths_nonempty; eassumption).
Qed.

(** C6: on the header whose only key is the empty string, holding the
    record [{ a: 1 }], the flattener emits the key ["a"] where the dot-joined
    chain of ancestor keys is [".a"]: an empty key makes the prefix test treat
    the nested record as top-level. *)
Theorem flattenFrontmatter_empty_key :
  flattenFrontmatter emptyKeyHeader EmptyString = [("a", VNumber 1)] /\
  flatten_spec emptyKeyHeader = [(".a", VNumber 1)] /\
  flattenFrontmatter emptyKeyHeader EmptyString <> flatten_spec emptyKeyHeader.
Proof. repeat split. discriminate. Qed.

(** Arrays are leaves even when they hold records. *)
Lemma flattenFrontmatter_array_leaf prefix key items rest :
  flattenFrontmatter (OCons key (VArray items) rest) prefix =
  (fullKeyOf prefix key, VArray items) :: flattenFrontmatter rest prefix.
Proof. reflexivity. Qed.

(** ** Adding a document twice *)

Lemma name_pushFile file field : name (pushFile file field) = name field.
Proof. unfold pushFile. destruct (hasPath _ _); reflexivity. Qed.

Lemma hasPath_app p l l' : hasPath p (l ++ l') = hasPath p l || hasPath p l'.
Proof. apply existsb_app. Qed.

Lemma hasPath_pushFile file field :
  hasPath (path file) (files (pushFile file field)) = true.
Proof.
  unfold pushFile. destruct (hasPath (path file) (files field)) eqn:E; [exact E|].
  simpl. rewrite hasPath_app. simpl. rewrite String.eqb_refl.
  now rewrite orb_true_r.
Qed.

Lemma pushFile_owned file field :
  hasPath (path file) (files field) = true -> pushFile file field = field.
Proof. unfold pushFile. now intros ->. Qed.

Lemma findField_app key c c' :
  findField key (c ++ c') =
  match findField key c with
  | Some r => Some r
  | None => findField key c'
  end.
Proof.
  unfold findField. induction c as [|f c IH]; simpl; [reflexivity|].
  destruct (String.eqb (name f) key); [reflexivity | exact IH].
Qed.

Lemma findField_updateField key key' g c :
  (forall f, name (g f) = name f) ->
  findField key (updateField key' g c) =
  if String.eqb key' key then option_map g (findField key c)
  else findField key c.
Proof.
  intros Hg. unfold findField.
  induction c as [|f c IH]; simpl.
  - now destruct (String.eqb key' key).
  - destruct (String.eqb_spec (name f) key') as [E1|E1]; simpl.
    + rewrite Hg. subst key'.
      destruct (String.eqb_spec (name f) key) as [E2|E2]; [reflexivity|].
      reflexivity.
    + destruct (String.eqb_spec (name f) key) as [E2|E2].
      * subst key. destruct (String.eqb_spec key' (name f)); [congruence|reflexivity].
      * exact IH.
Qed.

Lemma updateField_app_absent key g c c' :
  findField key c = None ->
  updateField key g (c ++ c') = c ++ updateField key g c'.
Proof.
  unfold findField. induction c as [|f c IH]; simpl; [reflexivity|].
  destruct (String.eqb (name f) key); [discriminate|].
  intros H. now rewrite IH.
Qed.

Lemma updateField_fixed key g c r :
  findField key c = Some r -> g r = r -> updateField key g c = c.
Proof.
  unfold findField. induction c as [|f c IH]; simpl; [discriminate|].
  destruct (String.eqb (name f) key).
  - intros [= ->] ->. reflexivity.
  - intros H1 H2. now rewrite IH.
Qed.

Lemma addKey_owned file key c : owns c key file -> addKey file key c = c.
Proof.
  intros [r [Hf Hp]]. unfold addKey. rewrite Hf.
  apply (updateField_fixed _ _ _ r Hf). now apply pushFile_owned.
Qed.

Lemma findField_name key c r : findField key c = Some r -> name r = key.
Proof.
  unfold findField. intros H. apply find_some in H.
  now apply String.eqb_eq.
Qed.

Lemma findField_addKey file key key' c :
  findField key (addKey file key' c) =
  if String.eqb key' key
  then Some (pushFile file
               match findField key c with
               | Some r => r
               | None => {| name := key; count := 0; files := [];
                            valueStats := None |}
               end)
  else findField key c.
Proof.
  unfold addKey.
  rewrite findField_updateField by apply name_pushFile.
  destruct (String.eqb_spec key' key) as [->|Hne].
  - destruct (findField key c) eqn:E; simpl; [now rewrite E|].
    rewrite findField_app, E. unfold findField. simpl.
    now rewrite String.eqb_refl.
  - destruct (findField key' c) eqn:E; [reflexivity|].
    rewrite findField_app. destruct (findField key c); [reflexivity|].
    unfold findField. simpl.
    destruct (String.eqb_spec key' key); [contradiction | reflexivity].
Qed.

Lemma addKey_owns file key c : owns (addKey file key c) key file.
Proof.
  unfold owns. rewrite findField_addKey, String.eqb_refl.
  eexists. split; [reflexivity | apply hasPath_pushFile].
Qed.

Lemma addKey_keeps_owns file key key' c :
  owns c key file -> owns (addKey file key' c) key file.
Proof.
  intros H. destruct (String.eqb_spec key' key) as [->|Hne].
  - apply addKey_owns.
  - destruct H as [r [Hf Hp]]. exists r. split; [|exact Hp].
    rewrite findField_addKey.
    destruct (String.eqb_spec key' key); [contradiction | exact Hf].
Qed.

Lemma addEntries_keeps_owns settings file es : forall c key,
  owns c key file -> owns (addEntries settings file es c) key file.
Proof.
  unfold addEntries. induction es as [|e es IH]; simpl; intros c key H; [exact H|].
  apply IH. destruct (ignoreSetHas settings (fst e)); [exact H|].
  now apply addKey_keeps_owns.
Qed.

Lemma addEntries_owns settings file es : forall c e,
  In e es -> ignoreSetHas settings (fst e) = false ->
  owns (addEntries settings file es c) (fst e) file.
Proof.
  unfold addEntries. induction es as [|e' es IH]; simpl; intros c e Hin Hig; [tauto|].
  destruct Hin as [-> | Hin].
  - rewrite Hig. apply (addEntries_keeps_owns settings file es). apply addKey_owns.
  - now apply IH.
Qed.

Lemma addEntries_fixed settings file es : forall c,
  (forall e, In e es -> ignoreSetHas settings (fst e) = false ->
             owns c (fst e) file) ->
  addEntries settings file es c = c.
Proof.
  unfold addEntries. induction es as [|e es IH]; simpl; intros c H; [reflexivity|].
  destruct (ignoreSetHas settings (fst e)) eqn:E.
  - apply IH. intros e' Hin. apply H. now right.
  - rewrite addKey_owned by (apply H; [now left | exact E]).
    apply IH. intros e' Hin. apply H. now right.
Qed.

Lemma addEntries_idempotent settings file es c :
  addEntries settings file es (addEntries settings file es c) =
  addEntries settings file es c.
Proof.
  apply addEntries_fixed. intros e Hin Hig. now apply addEntries_owns.
Qed.

(** C7: handling the created notification a second time for the same
    document, with the host's metadata unchanged, leaves the index (records,
    counts, owning lists) exactly as the first call left it. *)
Theorem updateCacheOnCreate_twice app settings now now' file s :
  cache (updateCacheOnCreate app settings now' file
           (updateCacheOnCreate app settings now file s)) =
  cache (updateCacheOnCreate app settings now file s).
Proof.
  destruct file as [f|p]; simpl; [|reflexivity].
  destruct (String.eqb (extension f) "md"); [|reflexivity].
  unfold addFileToCache.
  destruct (frontmatterOf app f) as [fm|]; simpl; [|reflexivity].
  apply addEntries_idempotent.
Qed.

(** ** What every operation carries along *)

Section SortFacts.
Context {A : Type} (cmp : A -> A -> Z).

Lemma sortInsert_perm x l : Permutation (sortInsert cmp x l) (x :: l).
Proof.
  induction l as [|y l IH]; simpl; [reflexivity|].
  destruct (0 <? cmp x y); [|reflexivity].
  rewrite IH. apply perm_swap.
Qed.

Lemma jsSort_perm l : Permutation (jsSort cmp l) l.
Proof.
  induction l as [|x l IH]; simpl; [reflexivity|].
  rewrite sortInsert_perm. now constructor.
Qed.

Lemma jsSort_Forall (P : A -> Prop) l : Forall P l -> Forall P (jsSort cmp l).
Proof.
  intros H. eapply Permutation_Forall; [|exact H].
  symmetry. apply jsSort_perm.
Qed.
End SortFacts.

(** [Object.values] lists every own record once. *)
Lemma integerEntries_perm m :
  Permutation (map snd (integerEntries m) ++ map snd (filter isStringKey m))
              (map snd m).
Proof.
  induction m as [|e m IH]; simpl; [constructor|].
  unfold isStringKey at 1. destruct (integerKey (fst e)); simpl.
  - now constructor.
  - symmetry. apply Permutation_cons_app. now symmetry.
Qed.

Lemma objectValues_perm m : Permutation (objectValues m) (map snd m).
Proof.
  unfold objectValues. rewrite <- (integerEntries_perm m).
  apply Permutation_app_tail. apply Permutation_map. apply jsSort_perm.
Qed.

Lemma objectValues_Forall (P : FrontmatterField -> Prop) m :
  mapHolds P m -> Forall P (objectValues m).
Proof.
  intros H. eapply Permutation_Forall; [symmetry; apply objectValues_perm|].
  apply Forall_map. exact H.
Qed.

(** Record-wise properties that every plugin operation carries along. *)
Section Preservation.
Variable P : FrontmatterField -> Prop.
Variable settings : PluginSettings.

Hypothesis P_fresh : forall key vs,
  ignoreSetHas settings key = false ->
  P {| name := key; count := 0; files := []; valueStats := vs |}.
Hypothesis P_pushFile : forall file r, P r -> P (pushFile file r).
Hypothesis P_countFile : forall file v r, P r -> P (countFile settings file v r).
Hypothesis P_withoutFile : forall p r, P r -> P (withoutFile p r).
Hypothesis P_trimTopValues : forall r, P r -> P (trimTopValues r).

Lemma updateField_Forall key g c :
  (forall r, P r -> P (g r)) -> Forall P c -> Forall P (updateField key g c).
Proof.
  intros Hg. induction 1 as [|f c Hf Hc IH]; simpl; [constructor|].
  destruct (String.eqb (name f) key); constructor; auto.
Qed.

Lemma addKey_Forall file key c :
  ignoreSetHas settings key = false ->
  Forall P c -> Forall P (addKey file key c).
Proof.
  intros Hk Hc. unfold addKey. apply updateField_Forall; [now auto|].
  destruct (findField key c); [exact Hc|].
  apply Forall_app. split; [exact Hc|]. constructor; [|constructor].
  now apply P_fresh.
Qed.

Lemma addEntries_Forall file es : forall c,
  Forall P c -> Forall P (addEntries settings file es c).
Proof.
  unfold addEntries. induction es as [|e es IH]; simpl; intros c Hc; [exact Hc|].
  apply IH. destruct (ignoreSetHas settings (fst e)) eqn:E; [exact Hc|].
  now apply addKey_Forall.
Qed.

Lemma addFileToCache_Forall app now file s :
  Forall P (cache s) -> Forall P (cache (addFileToCache app settings now file s)).
Proof.
  intros H. unfold addFileToCache.
  destruct (frontmatterOf app file); simpl; [|exact H].
  now apply addEntries_Forall.
Qed.

Lemma removeFile_Forall p c : Forall P c -> Forall P (removeFile p c).
Proof.
  intros H. unfold removeFile. apply Forall_forall. intros r Hin.
  apply filter_In in Hin. destruct Hin as [Hin _].
  apply in_map_iff in Hin. destruct Hin as [r0 [<- Hin]].
  apply P_withoutFile. revert r0 Hin. now apply Forall_forall.
Qed.

Lemma updateCacheForFile_Forall app now file s :
  Forall P (cache s) ->
  Forall P (cache (updateCacheForFile app settings now file s)).
Proof.
  intros H. unfold updateCacheForFile.
  destruct (negb _); [exact H|].
  apply addFileToCache_Forall. simpl. now apply removeFile_Forall.
Qed.

Lemma updateCacheOnDelete_Forall file s :
  Forall P (cache s) -> Forall P (cache (updateCacheOnDelete file s)).
Proof.
  intros H. destruct file as [f|]; simpl; [|exact H].
  destruct (negb _); [exact H|]. simpl. now apply removeFile_Forall.
Qed.

Lemma updateCacheOnCreate_Forall app now file s :
  Forall P (cache s) ->
  Forall P (cache (updateCacheOnCreate app settings now file s)).
Proof.
  intros H. destruct file as [f|]; simpl; [|exact H].
  destruct (String.eqb _ _); [|exact H]. now apply addFileToCache_Forall.
Qed.

Lemma updateEntry_holds key g m :
  (forall r, P r -> P (g r)) -> mapHolds P m -> mapHolds P (updateEntry key g m).
Proof.
  intros Hg. unfold mapHolds. induction 1 as [|[k f] m Hf Hm IH]; simpl; [constructor|].
  destruct (String.eqb k key); constructor; simpl; auto.
Qed.

Lemma scanEntry_holds file m e m' :
  mapHolds P m -> scanEntry settings file m e = Some m' -> mapHolds P m'.
Proof.
  intros Hm. unfold scanEntry.
  destruct (ignoreSetHas settings (fst e)) eqn:E; [intros [= <-]; exact Hm|].
  destruct (lookupField (fst e) m); intros [= <-].
  - apply updateEntry_holds; [now auto | exact Hm].
  - apply updateEntry_holds; [now auto|].
    apply Forall_app. split; [exact Hm|]. constructor; [|constructor].
    simpl. now apply P_fresh.
Qed.

Lemma scanEntries_holds file es : forall m m',
  mapHolds P m -> scanEntries settings file es m = Some m' -> mapHolds P m'.
Proof.
  induction es as [|e es IH]; simpl; intros m m' Hm; [intros [= <-]; exact Hm|].
  destruct (scanEntry settings file m e) as [m1|] eqn:E; [|discriminate].
  apply IH. now apply (scanEntry_holds file m e).
Qed.

Lemma scanFile_holds app callback total sc file :
  mapHolds P (fieldsMap sc) ->
  mapHolds P (fieldsMap (scanFile app settings callback total sc file)).
Proof.
  intros H. unfold scanFile.
  destruct (threw sc); [exact H|].
  destruct (frontmatterOf app file); simpl; [|exact H].
  destruct (scanEntries settings file _ (fieldsMap sc)) as [m|] eqn:E;
    simpl; [|exact H].
  revert E. now apply scanEntries_holds.
Qed.

Lemma scanFiles_holds app callback total fs : forall sc,
  mapHolds P (fieldsMap sc) ->
  mapHolds P (fieldsMap (fold_left (scanFile app settings callback total) fs sc)).
Proof.
  induction fs as [|f fs IH]; simpl; intros sc H; [exact H|].
  apply IH. now apply scanFile_holds.
Qed.

Lemma rebuiltFields_Forall m : mapHolds P m -> Forall P (rebuiltFields settings m).
Proof.
  intros H. unfold rebuiltFields. apply jsSort_Forall.
  apply objectValues_Forall.
  destruct (analyzeValues settings); [|exact H].
  apply Forall_map. simpl.
  eapply Forall_impl; [|exact H]. simpl. auto.
Qed.

Lemma getFields_Forall app callback now now' s :
  Forall P (cache s) ->
  Forall P (cache (after (getFields app settings callback now now' s))).
Proof.
  intros H. unfold getFields.
  destruct (_ && _); simpl; [exact H|].
  destruct (threw (scanAll app settings callback)); simpl; [exact H|].
  apply rebuiltFields_Forall. unfold scanAll.
  apply scanFiles_holds. constructor.
Qed.
End Preservation.

(** A call that resolves returns what it leaves in the cache; a call that
    rejects returns nothing and leaves the state alone. *)
Lemma getFields_returned_cache app settings callback now now' s :
  rejected (getFields app settings callback now now' s) = false ->
  returned (getFields app settings callback now now' s) =
  cache (after (getFields app settings callback now now' s)).
Proof.
  unfold getFields. destruct (_ && _); [reflexivity|].
  now destruct (threw (scanAll app settings callback)).
Qed.

Lemma getFields_rejected app settings callback now now' s :
  rejected (getFields app settings callback now now' s) = true ->
  returned (getFields app settings callback now now' s) = [] /\
  after (getFields app settings callback now now' s) = s.
Proof.
  unfold getFields. destruct (_ && _); [discriminate|].
  now destruct (threw (scanAll app settings callback)).
Qed.

(** ** Ignore list, counts and owners *)

(** *** Record names *)

Lemma ignoreSetHas_false settings key :
  ignoreSetHas settings key = false -> ~ In key (ignoreFields settings).
Proof.
  unfold ignoreSetHas. intros H Hin.
  assert (existsb (String.eqb key) (ignoreFields settings) = true) as E.
  { apply existsb_exists. exists key. split; [exact Hin | apply String.eqb_refl]. }
  congruence.
Qed.

Lemma name_countFile settings file v r : name (countFile settings file v r) = name r.
Proof. unfold countFile. destruct (hasPath _ _); reflexivity. Qed.

Lemma name_trimTopValues r : name (trimTopValues r) = name r.
Proof. unfold trimTopValues. destruct (valueStats r); reflexivity. Qed.

Lemma files_trimTopValues r : files (trimTopValues r) = files r.
Proof. unfold trimTopValues. destruct (valueStats r); reflexivity. Qed.

Lemma count_trimTopValues r : count (trimTopValues r) = count r.
Proof. unfold trimTopValues. destruct (valueStats r); reflexivity. Qed.

Lemma handle_notIgnored settings s e :
  Forall (notIgnored (ignoreFields settings)) (cache s) ->
  Forall (notIgnored (ignoreFields settings)) (cache (handle settings s e)).
Proof.
  intros H.
  assert (forall key vs, ignoreSetHas settings key = false ->
            notIgnored (ignoreFields settings)
              {| name := key; count := 0; files := []; valueStats := vs |}) as Hfresh
    by (intros key vs Hk; now apply ignoreSetHas_false).
  assert (forall file r, notIgnored (ignoreFields settings) r ->
            notIgnored (ignoreFields settings) (pushFile file r)) as Hpush
    by (intros file r; unfold notIgnored; now rewrite name_pushFile).
  assert (forall file v r, notIgnored (ignoreFields settings) r ->
            notIgnored (ignoreFields settings) (countFile settings file v r)) as Hcount
    by (intros file v r; unfold notIgnored; now rewrite name_countFile).
  assert (forall r, notIgnored (ignoreFields settings) r ->
            notIgnored (ignoreFields settings) (trimTopValues r)) as Htrim
    by (intros r; unfold notIgnored; now rewrite name_trimTopValues).
  destruct e as [app now file|file|file oldPath|app now file|app cb now now'|]; simpl.
  - apply updateCacheForFile_Forall; auto.
  - apply updateCacheOnDelete_Forall; auto.
  - destruct file as [f|]; simpl; [|exact H].
    destruct (negb _); [exact H|]. simpl.
    apply Forall_map. eapply Forall_impl; [|exact H]. auto.
  - apply updateCacheOnCreate_Forall; auto.
  - apply getFields_Forall; auto.
  - constructor.
Qed.

Lemma reachable_notIgnored ignore s :
  reachable ignore s -> Forall (notIgnored ignore) (cache s).
Proof.
  induction 1 as [|s settings e Hs IH Hok]; [constructor|].
  subst ignore. now apply handle_notIgnored.
Qed.

(** C8: in every state reached from activation through reads, rebuilds,
    invalidations and the four incremental handlers, all run under the ignore
    list [ignore], a read under that ignore list returns no record whose name
    is on the list. *)
Theorem ignored_field_never_returned ignore s app settings callback now now' r :
  reachable ignore s ->
  ignoreFields settings = ignore ->
  In r (returned (getFields app settings callback now now' s)) ->
  ~ In (name r) ignore.
Proof.
  intros Hs Hig Hin.
  destruct (rejected (getFields app settings callback now now' s)) eqn:Hrej.
  { apply getFields_rejected in Hrej. destruct Hrej as [E _].
    rewrite E in Hin. contradiction. }
  rewrite getFields_returned_cache in Hin by exact Hrej.
  assert (reachable ignore (handle settings s (Read app callback now now'))) as Hr
    by (now apply reachable_step).
  apply reachable_notIgnored in Hr. simpl in Hr.
  rewrite Forall_forall in Hr. now apply (Hr r).
Qed.

(** *** Counts *)

Lemma counted_pushFile file r : counted r -> counted (pushFile file r).
Proof.
  unfold counted, pushFile. destruct (hasPath _ _); [auto|]. simpl.
  intros ->. rewrite length_app. simpl. lia.
Qed.

Lemma counted_countFile settings file v r :
  counted r -> counted (countFile settings file v r).
Proof.
  unfold counted, countFile. destruct (hasPath _ _); [auto|]. simpl.
  intros ->. rewrite length_app. simpl. lia.
Qed.

Lemma counted_trimTopValues r : counted r -> counted (trimTopValues r).
Proof. unfold counted. now rewrite count_trimTopValues, files_trimTopValues. Qed.

Lemma counted_withoutFile p r : counted (withoutFile p r).
Proof. reflexivity. Qed.

Lemma counted_renameIn f oldPath r : counted r -> counted (renameIn f oldPath r).
Proof. unfold counted. simpl. intros ->. now rewrite length_map. Qed.

Lemma handle_counted settings s e :
  Forall counted (cache s) -> Forall counted (cache (handle settings s e)).
Proof.
  intros H.
  pose proof counted_pushFile as Hpush.
  pose proof (counted_countFile settings) as Hcount.
  pose proof counted_trimTopValues as Htrim.
  assert (forall p r, counted r -> counted (withoutFile p r)) as Hwithout
    by (intros; apply counted_withoutFile).
  assert (forall key vs, ignoreSetHas settings key = false ->
            counted {| name := key; count := 0; files := []; valueStats := vs |})
    as Hfresh by reflexivity.
  destruct e as [app now file|file|file oldPath|app now file|app cb now now'|]; simpl.
  - apply updateCacheForFile_Forall; auto.
  - apply updateCacheOnDelete_Forall; auto.
  - destruct file as [f|]; simpl; [|exact H].
    destruct (negb _); [exact H|]. simpl.
    apply Forall_map. eapply Forall_impl; [|exact H].
    intros r. apply counted_renameIn.
  - apply updateCacheOnCreate_Forall; auto.
  - apply getFields_Forall; auto.
  - constructor.
Qed.

(** X1: in every state the plugin can reach, whatever the settings at each
    step, each record's count is the length of its owning list. *)
Theorem count_is_owner_total s :
  reachableUnder (fun _ => True) s -> Forall counted (cache s).
Proof.
  induction 1 as [|s settings e Hs IH _]; [constructor|].
  now apply handle_counted.
Qed.

(** *** Distinct owners *)

Lemma hasPath_false p l : hasPath p l = false -> ~ In p (map path l).
Proof.
  unfold hasPath. intros H Hin. apply in_map_iff in Hin.
  destruct Hin as [f [<- Hin]].
  assert (existsb (fun g => String.eqb (path g) (path f)) l = true) as E.
  { apply existsb_exists. exists f. split; [exact Hin | apply String.eqb_refl]. }
  congruence.
Qed.

Lemma NoDup_snoc {A} (l : list A) x : NoDup l -> ~ In x l -> NoDup (l ++ [x]).
Proof.
  intros Hl Hx. apply NoDup_app; [exact Hl | repeat constructor; auto |].
  intros a Ha [<- | []]. contradiction.
Qed.

Lemma distinct_pushFile file r : distinctOwners r -> distinctOwners (pushFile file r).
Proof.
  unfold distinctOwners, pushFile.
  destruct (hasPath _ _) eqn:E; [auto|]. simpl. intros H.
  rewrite map_app. simpl. apply NoDup_snoc; [exact H | now apply hasPath_false].
Qed.

Lemma distinct_countFile settings file v r :
  distinctOwners r -> distinctOwners (countFile settings file v r).
Proof.
  unfold distinctOwners, countFile.
  destruct (hasPath _ _) eqn:E; [auto|]. simpl. intros H.
  rewrite map_app. simpl. apply NoDup_snoc; [exact H | now apply hasPath_false].
Qed.

Lemma NoDup_map_filter {A B} (f : A -> B) q (l : list A) :
  NoDup (map f l) -> NoDup (map f (filter q l)).
Proof.
  induction l as [|a l IH]; simpl; [auto|].
  intros H. inversion H as [|? ? Hn Hl]; subst.
  destruct (q a); simpl; [|auto]. constructor; [|auto].
  intros Hin. apply Hn. apply in_map_iff in Hin. destruct Hin as [b [Eb Hb]].
  apply filter_In in Hb. apply in_map_iff. exists b. tauto.
Qed.

Lemma distinct_withoutFile p r : distinctOwners r -> distinctOwners (withoutFile p r).
Proof. unfold distinctOwners. simpl. apply NoDup_map_filter. Qed.

Lemma distinct_trimTopValues r : distinctOwners r -> distinctOwners (trimTopValues r).
Proof. unfold distinctOwners. now rewrite files_trimTopValues. Qed.

(** A rename keeps the owners distinct when the new path is not yet among
    them. *)
Lemma distinct_renameIn f oldPath r :
  distinctOwners r -> ~ In (path f) (map path (files r)) ->
  distinctOwners (renameIn f oldPath r).
Proof.
  unfold distinctOwners. simpl. rewrite map_map.
  induction (files r) as [|g l IH]; simpl; [constructor|].
  intros H Hnew. inversion H as [|? ? Hn Hl]; subst.
  constructor; [|apply IH; tauto].
  intros Hin. apply in_map_iff in Hin. destruct Hin as [h [Eh Hh]].
  destruct (String.eqb_spec (path g) oldPath) as [Eg|Eg];
    destruct (String.eqb_spec (path h) oldPath) as [E'|E'].
  - apply Hn. apply in_map_iff. exists h. split; [congruence | exact Hh].
  - apply Hnew. right. apply in_map_iff. exists h. split; [exact Eh | exact Hh].
  - apply Hnew. left. congruence.
  - apply Hn. apply in_map_iff. exists h. split; [exact Eh | exact Hh].
Qed.

(** X2: every operation keeps the owning lists free of repeated paths,
    a rename provided its new path is not yet an owner of any record. *)
Lemma handle_distinct settings s e :
  (forall f oldPath, e = Renamed (AFile f) oldPath ->
     Forall (fun r => ~ In (path f) (map path (files r))) (cache s)) ->
  Forall distinctOwners (cache s) ->
  Forall distinctOwners (cache (handle settings s e)).
Proof.
  intros Hfresh_path H.
  pose proof distinct_pushFile as Hpush.
  pose proof (distinct_countFile settings) as Hcount.
  pose proof distinct_trimTopValues as Htrim.
  pose proof distinct_withoutFile as Hwithout.
  assert (forall key vs, ignoreSetHas settings key = false ->
            distinctOwners {| name := key; count := 0; files := []; valueStats := vs |})
    as Hfresh by (intros; constructor).
  destruct e as [app now file|file|file oldPath|app now file|app cb now now'|]; simpl.
  - apply updateCacheForFile_Forall; auto.
  - apply updateCacheOnDelete_Forall; auto.
  - destruct file as [f|]; simpl; [|exact H].
    destruct (negb _); [exact H|]. simpl.
    specialize (Hfresh_path f oldPath eq_refl).
    apply Forall_map. rewrite Forall_forall in *.
    intros r Hr. apply distinct_renameIn; auto.
  - apply updateCacheOnCreate_Forall; auto.
  - apply getFields_Forall; auto.
  - constructor.
Qed.

(** ** The read path: validity test and rebuild *)

(** *** When the scan throws *)

Lemma map_fst_updateEntry key g m : map fst (updateEntry key g m) = map fst m.
Proof.
  induction m as [|[k f] m IH]; simpl; [reflexivity|].
  destruct (String.eqb k key); simpl; [reflexivity | now rewrite IH].
Qed.

Lemma ownNames_updateEntry key g m : ownNames m -> ownNames (updateEntry key g m).
Proof.
  unfold ownNames. rewrite <- !(Forall_map fst (fun k => isInherited k = false)).
  now rewrite map_fst_updateEntry.
Qed.

Lemma ownNames_find key m e :
  ownNames m -> find (fun e => String.eqb (fst e) key) m = Some e ->
  isInherited key = false.
Proof.
  intros Hm Hf. destruct (find_some _ _ Hf) as [Hin Heq].
  apply String.eqb_eq in Heq. subst key.
  unfold ownNames in Hm. rewrite Forall_forall in Hm. now apply Hm.
Qed.

(** The inner loop throws exactly when one of the entries it reaches has a
    key that is not ignored and names a member of [Object.prototype]. *)
Lemma scanEntries_outcome settings file es : forall m,
  ownNames m ->
  match scanEntries settings file es m with
  | Some m' =>
      ownNames m' /\
      forallb (fun k => negb (isInherited k))
        (filter (fun k => negb (ignoreSetHas settings k)) (map fst es)) = true
  | None =>
      forallb (fun k => negb (isInherited k))
        (filter (fun k => negb (ignoreSetHas settings k)) (map fst es)) = false
  end.
Proof.
  induction es as [|e es IH]; intros m Hm; [now split|].
  cbn [scanEntries map filter]. unfold scanEntry.
  destruct (ignoreSetHas settings (fst e)) eqn:Eig; cbn [negb].
  - now apply IH.
  - cbn [forallb]. unfold lookupField.
    destruct (find (fun e0 => String.eqb (fst e0) (fst e)) m) as [e0|] eqn:Ef.
    + rewrite (ownNames_find _ _ _ Hm Ef). cbn [negb andb].
      apply IH. now apply ownNames_updateEntry.
    + destruct (isInherited (fst e)) eqn:Einh; cbn [negb andb]; [reflexivity|].
      apply IH. apply ownNames_updateEntry.
      apply Forall_app. split; [exact Hm|]. constructor; [exact Einh | constructor].
Qed.

Lemma scanFile_outcome app settings callback total sc file :
  threw sc = false ->
  ownNames (fieldsMap sc) ->
  ownNames (fieldsMap (scanFile app settings callback total sc file)) /\
  threw (scanFile app settings callback total sc file) =
    negb (ordinaryFile app settings file).
Proof.
  intros Ht Hm. unfold scanFile, ordinaryFile, keysOf. rewrite Ht.
  destruct (frontmatterOf app file) as [fm|]; [|now split].
  pose proof (scanEntries_outcome settings file
                (flattenFrontmatter fm EmptyString) (fieldsMap sc) Hm) as H.
  destruct (scanEntries settings file _ (fieldsMap sc)) as [m|].
  - destruct H as [H1 ->]. now split.
  - rewrite H. now split.
Qed.

(** After a throw the loop is over. *)
Lemma scanFiles_thrown app settings callback total fs : forall sc,
  threw sc = true ->
  fold_left (scanFile app settings callback total) fs sc = sc.
Proof.
  induction fs as [|f fs IH]; intros sc Ht; [reflexivity|].
  cbn [fold_left]. unfold scanFile at 2. rewrite Ht. now apply IH.
Qed.

Lemma scanFiles_threw app settings callback total fs : forall sc,
  threw sc = false ->
  ownNames (fieldsMap sc) ->
  threw (fold_left (scanFile app settings callback total) fs sc) =
    negb (forallb (ordinaryFile app settings) fs).
Proof.
  induction fs as [|f fs IH]; intros sc Ht Hm; [exact Ht|].
  cbn [fold_left forallb].
  destruct (scanFile_outcome app settings callback total sc f Ht Hm) as [Hm' Ht'].
  destruct (ordinaryFile app settings f); cbn [negb andb] in *.
  - now apply IH.
  - now rewrite scanFiles_thrown.
Qed.

(** The rebuild throws exactly when some markdown document declares a field
    under an inherited name. *)
Lemma scanAll_threw app settings callback :
  threw (scanAll app settings callback) = negb (ordinaryNames app settings).
Proof.
  unfold scanAll, ordinaryNames. apply scanFiles_threw; [reflexivity | constructor].
Qed.

Lemma scanAll_quiet app settings callback :
  ordinaryNames app settings = true ->
  threw (scanAll app settings callback) = false.
Proof. intros H. now rewrite scanAll_threw, H. Qed.

(** A turn that does not throw: the file is looked up and counted, and the
    callback is invoked when it was supplied and, for a file with a header,
    the progress flag is on. *)
Lemma scanFile_quiet app settings callback total sc file :
  threw (scanFile app settings callback total sc file) = false ->
  threw sc = false /\
  visited (scanFile app settings callback total sc file) = visited sc ++ [file] /\
  processedFiles (scanFile app settings callback total sc file) =
    processedFiles sc + 1 /\
  reported (scanFile app settings callback total sc file) =
    if match frontmatterOf app file with
       | Some _ => callback && showProgress settings
       | None => callback
       end
    then reported sc ++ [percentage (processedFiles sc + 1) total]
    else reported sc.
Proof.
  unfold scanFile. destruct (threw sc) eqn:Ht; [congruence|].
  destruct (frontmatterOf app file) as [fm|]; [|now auto].
  destruct (scanEntries settings file _ (fieldsMap sc)); [now auto|].
  discriminate.
Qed.

Lemma scanFiles_quiet app settings callback total fs sc :
  threw (fold_left (scanFile app settings callback total) fs sc) = false ->
  threw sc = false.
Proof.
  intros H. destruct (threw sc) eqn:Ht; [|reflexivity].
  rewrite scanFiles_thrown in H by exact Ht. congruence.
Qed.

Lemma visited_scanFiles app settings callback total fs : forall sc,
  threw (fold_left (scanFile app settings callback total) fs sc) = false ->
  visited (fold_left (scanFile app settings callback total) fs sc) =
  visited sc ++ fs.
Proof.
  induction fs as [|f fs IH]; cbn [fold_left]; intros sc H;
    [now rewrite app_nil_r|].
  rewrite IH by exact H. apply scanFiles_quiet in H.
  destruct (scanFile_quiet _ _ _ _ _ _ H) as [_ [-> _]].
  now rewrite <- app_assoc.
Qed.

Lemma visited_scanAll app settings callback :
  ordinaryNames app settings = true ->
  visited (scanAll app settings callback) = getMarkdownFiles app.
Proof.
  intros H. apply (scanAll_quiet app settings callback) in H.
  unfold scanAll in *. now rewrite visited_scanFiles.
Qed.

Lemma getFields_cached app settings callback now now' s :
  cache s <> [] ->
  now - lastUpdate s < cacheTTL settings * 1000 ->
  getFields app settings callback now now' s =
  {| returned := cache s; after := s; scanned := []; progress := [];
     rejected := false |}.
Proof.
  intros Hne Hlt. unfold getFields.
  assert ((0 <? Z.of_nat (List.length (cache s))) = true) as ->.
  { apply Z.ltb_lt. destruct (cache s); [congruence | simpl; lia]. }
  assert ((now - lastUpdate s <? cacheTTL settings * 1000) = true) as ->
    by now apply Z.ltb_lt.
  reflexivity.
Qed.

Lemma getFields_miss now settings s :
  cache s = [] \/ cacheTTL settings * 1000 <= now - lastUpdate s ->
  (0 <? Z.of_nat (List.length (cache s)))
  && (now - lastUpdate s <? cacheTTL settings * 1000) = false.
Proof.
  intros [-> | H]; [reflexivity|].
  apply andb_false_iff. right. now apply Z.ltb_ge.
Qed.

Lemma getFields_rebuilds app settings callback now now' s :
  ordinaryNames app settings = true ->
  cache s = [] \/ cacheTTL settings * 1000 <= now - lastUpdate s ->
  getFields app settings callback now now' s =
  let sc := scanAll app settings callback in
  {| returned := rebuiltFields settings (fieldsMap sc);
     after := {| cache := rebuiltFields settings (fieldsMap sc);
                 lastUpdate := now' |};
     scanned := getMarkdownFiles app;
     progress := reported sc;
     rejected := false |}.
Proof.
  intros Ho H. unfold getFields.
  rewrite getFields_miss by exact H.
  rewrite scanAll_quiet by exact Ho.
  simpl. now rewrite visited_scanAll.
Qed.

Lemma getFields_throws app settings callback now now' s :
  ordinaryNames app settings = false ->
  cache s = [] \/ cacheTTL settings * 1000 <= now - lastUpdate s ->
  getFields app settings callback now now' s =
  let sc := scanAll app settings callback in
  {| returned := []; after := s; scanned := visited sc;
     progress := reported sc; rejected := true |}.
Proof.
  intros Ho H. unfold getFields.
  rewrite getFields_miss by exact H.
  now rewrite scanAll_threw, Ho.
Qed.

(** A turn on a loop that has not thrown looks the file up; it invokes the
    callback at most once, and not at all when it throws. *)
Lemma scanFile_visited app settings callback total sc file :
  threw sc = false ->
  visited (scanFile app settings callback total sc file) = visited sc ++ [file] /\
  (List.length (reported (scanFile app settings callback total sc file)) <=
   List.length (reported sc) + 1)%nat /\
  (threw (scanFile app settings callback total sc file) = true ->
   reported (scanFile app settings callback total sc file) = reported sc).
Proof.
  intros Ht. unfold scanFile. rewrite Ht.
  destruct (frontmatterOf app file) as [fm|];
    [destruct (scanEntries settings file _ (fieldsMap sc))|]; simpl;
    (split; [reflexivity|]); (split; [|try discriminate; reflexivity]);
    try destruct (callback && showProgress settings);
    try destruct callback; rewrite ?length_app; simpl; lia.
Qed.

(** The loop stops at the first document that declares a field under an
    inherited name. *)
Lemma scanFiles_stop app settings callback total fs : forall sc,
  threw sc = false ->
  ownNames (fieldsMap sc) ->
  forallb (ordinaryFile app settings) fs = false ->
  exists pre f post,
    fs = pre ++ f :: post /\
    forallb (ordinaryFile app settings) pre = true /\
    ordinaryFile app settings f = false /\
    visited (fold_left (scanFile app settings callback total) fs sc) =
      visited sc ++ pre ++ [f] /\
    (List.length (reported (fold_left (scanFile app settings callback total) fs sc))
     <= List.length (reported sc) + List.length pre)%nat.
Proof.
  induction fs as [|g fs IH]; intros sc Ht Hm Hf; [discriminate|].
  cbn [forallb fold_left] in *.
  destruct (scanFile_outcome app settings callback total sc g Ht Hm) as [Hm' Ht'].
  destruct (scanFile_visited app settings callback total sc g Ht) as [Hv [Hr Hr']].
  destruct (ordinaryFile app settings g) eqn:Eg; cbn [negb andb] in *.
  - destruct (IH _ Ht' Hm' Hf) as [pre [f [post [E [Hp [Hf' [Hvis Hrep]]]]]]].
    exists (g :: pre), f, post. subst fs.
    split; [reflexivity|]. split; [cbn [forallb]; now rewrite Eg|].
    split; [exact Hf'|]. split.
    + rewrite Hvis, Hv, <- app_assoc. reflexivity.
    + cbn [List.length]. lia.
  - exists [], g, fs. rewrite scanFiles_thrown by exact Ht'.
    split; [reflexivity|]. split; [reflexivity|]. split; [exact Eg|].
    split; [now rewrite Hv|]. rewrite (Hr' Ht'). simpl. lia.
Qed.

(** X25: on a cache miss over a collection in which some document declares
    a field under a name inherited from [Object.prototype] (and not
    ignored), [getFields] rejects: it returns nothing and leaves the cache
    and its timestamp as they were; it has looked up the markdown files up
    to the first such document and no later one, and has invoked the
    callback at most once for each file before that document. *)
Theorem getFields_rejects_on_inherited_name app settings callback now now' s :
  ordinaryNames app settings = false ->
  cache s = [] \/ cacheTTL settings * 1000 <= now - lastUpdate s ->
  rejected (getFields app settings callback now now' s) = true /\
  returned (getFields app settings callback now now' s) = [] /\
  after (getFields app settings callback now now' s) = s /\
  exists pre f post,
    getMarkdownFiles app = pre ++ f :: post /\
    forallb (ordinaryFile app settings) pre = true /\
    ordinaryFile app settings f = false /\
    scanned (getFields app settings callback now now' s) = pre ++ [f] /\
    (List.length (progress (getFields app settings callback now now' s))
     <= List.length pre)%nat.
Proof.
  intros Hord Hmiss. rewrite getFields_throws by assumption. simpl.
  split; [reflexivity|]. split; [reflexivity|]. split; [reflexivity|].
  unfold scanAll.
  destruct (scanFiles_stop app settings callback
              (Z.of_nat (List.length (getMarkdownFiles app)))
              (getMarkdownFiles app)
              {| fieldsMap := []; processedFiles := 0; visited := [];
                 reported := []; threw := false |}
              eq_refl (Forall_nil _) Hord)
    as [pre [f [post [E [Hp [Hf [Hv Hr]]]]]]].
  exists pre, f, post. auto.
Qed.

(** Each member of [Object.prototype] makes a rebuild throw when a header
    has a key of its name; other names do not, and neither does an ignored
    one. *)
Example inherited_names_throw :
  map (fun key => rejected (getFields (oneKeyVault key) DEFAULT_SETTINGS false
                              1000 1000 initialState))
      ["constructor"; "toString"; "toLocaleString"; "valueOf";
       "hasOwnProperty"; "isPrototypeOf"; "propertyIsEnumerable"; "__proto__";
       "__defineGetter__"; "__defineSetter__"; "__lookupGetter__";
       "__lookupSetter__"] =
    [true; true; true; true; true; true; true; true; true; true; true; true] /\
  map (fun key => rejected (getFields (oneKeyVault key) DEFAULT_SETTINGS false
                              1000 1000 initialState))
      ["status"; "Constructor"; "prototype"; "length"] =
    [false; false; false; false] /\
  rejected (getFields constructorVault ignoringConstructor false 1000 1000
              initialState) = false /\
  map name (returned (getFields constructorVault ignoringConstructor false
                        1000 1000 initialState)) = ["x"].
Proof. repeat split. Qed.

(** C3: the cache of one record was stored at time 1000 and the TTL of 600
    seconds has elapsed; the collection now holds A.md with the header key
    [constructor] and B.md.  The read does not rebuild: the call rejects,
    the old cache and its timestamp stay, and B.md is never looked up. *)
Theorem getFields_expired_throws_on_inherited_name :
  cache populatedStatusA <> [] /\
  cacheTTL DEFAULT_SETTINGS * 1000 <= 601000 - lastUpdate populatedStatusA /\
  getMarkdownFiles constructorVault = [mdFile "A.md"; mdFile "B.md"] /\
  rejected (getFields constructorVault DEFAULT_SETTINGS false 601000 601001
              populatedStatusA) = true /\
  returned (getFields constructorVault DEFAULT_SETTINGS false 601000 601001
              populatedStatusA) = [] /\
  after (getFields constructorVault DEFAULT_SETTINGS false 601000 601001
           populatedStatusA) = populatedStatusA /\
  lastUpdate populatedStatusA = 1000 /\
  scanned (getFields constructorVault DEFAULT_SETTINGS false 601000 601001
             populatedStatusA) = [mdFile "A.md"].
Proof.
  split; [discriminate|]. split; [vm_compute; discriminate|].
  repeat (split; [reflexivity|]). reflexivity.
Qed.

(** C10: with an empty cache, over the collection that holds A.md with the
    header key [constructor] and B.md, the scan is not full: it stops at
    A.md, B.md is never looked up, the call rejects and the state stays as
    it was. *)
Theorem empty_cache_scan_stops_at_inherited_name :
  cache initialState = [] /\
  getMarkdownFiles constructorVault = [mdFile "A.md"; mdFile "B.md"] /\
  scanned (getFields constructorVault DEFAULT_SETTINGS false 1000 1001
             initialState) = [mdFile "A.md"] /\
  rejected (getFields constructorVault DEFAULT_SETTINGS false 1000 1001
              initialState) = true /\
  after (getFields constructorVault DEFAULT_SETTINGS false 1000 1001
           initialState) = initialState.
Proof. repeat (split; [reflexivity|]). reflexivity. Qed.

Lemma clearCache_empty s : cache (clearCache s) = [].
Proof. reflexivity. Qed.

(** ** Incremental updates and cache validity *)




(** ** Progress reports *)

Lemma percentage_bounds k n :
  0 <= k <= n -> 0 < n ->
  (0 <= percentage k n)%Q /\ (percentage k n <= 100)%Q.
Proof.
  intros Hk Hn. unfold percentage.
  destruct n as [|p|p]; try lia.
  unfold Qle, Qdiv, Qmult, Qinv, inject_Z. simpl.
  split; nia.
Qed.

Lemma reported_scanFiles_shown app settings total fs : forall sc,
  showProgress settings = true ->
  threw (fold_left (scanFile app settings true total) fs sc) = false ->
  reported (fold_left (scanFile app settings true total) fs sc) =
  reported sc ++
    map (fun k => percentage k total) (countUp (processedFiles sc) (List.length fs)) /\
  processedFiles (fold_left (scanFile app settings true total) fs sc) =
  processedFiles sc + Z.of_nat (List.length fs).
Proof.
  induction fs as [|f fs IH]; intros sc Hshow Ht.
  - simpl. rewrite app_nil_r. split; [reflexivity | lia].
  - cbn [fold_left List.length countUp map] in *.
    destruct (IH (scanFile app settings true total sc f) Hshow Ht) as [-> ->].
    apply scanFiles_quiet in Ht.
    destruct (scanFile_quiet _ _ _ _ _ _ Ht) as [_ [_ [Ep Er]]].
    rewrite Ep, Er, Hshow.
    assert (match frontmatterOf app f with
            | Some _ => true && true
            | None => true
            end = true) as -> by now destruct (frontmatterOf app f).
    rewrite <- app_assoc. split; [reflexivity | lia].
Qed.

Lemma reported_scanFiles_none app settings total fs : forall sc,
  reported (fold_left (scanFile app settings false total) fs sc) = reported sc.
Proof.
  induction fs as [|f fs IH]; intros sc; simpl; [reflexivity|].
  rewrite IH. unfold scanFile. destruct (threw sc); [reflexivity|].
  destruct (frontmatterOf app f); [|reflexivity].
  now destruct (scanEntries settings f _ (fieldsMap sc)).
Qed.

Lemma countUp_range from n k : In k (countUp from n) -> from < k <= from + Z.of_nat n.
Proof.
  revert from. induction n as [|n IH]; simpl; intros from; [tauto|].
  intros [<- | H]; [lia|]. apply IH in H. lia.
Qed.

Lemma length_countUp from n : List.length (countUp from n) = n.
Proof. revert from. induction n; simpl; intros; [reflexivity | now f_equal]. Qed.

(** X7: with the progress flag on and a callback supplied, a rebuild over a
    collection in which no document declares a field under a name inherited
    from [Object.prototype] invokes the callback once per document, in
    order, with the share of documents processed so far; every reported
    value lies between 0 and 100. *)
Theorem progress_reported_per_document app settings now now' s :
  ordinaryNames app settings = true ->
  showProgress settings = true ->
  cache s = [] \/ cacheTTL settings * 1000 <= now - lastUpdate s ->
  let n := List.length (getMarkdownFiles app) in
  progress (getFields app settings true now now' s) =
    map (fun k => percentage k (Z.of_nat n)) (countUp 0 n) /\
  Forall (fun q => (0 <= q)%Q /\ (q <= 100)%Q)
    (progress (getFields app settings true now now' s)).
Proof.
  intros Hord Hshow Hmiss n. rewrite getFields_rebuilds by assumption. simpl.
  pose proof (scanAll_quiet app settings true Hord) as Hquiet.
  unfold scanAll in *.
  destruct (reported_scanFiles_shown app settings (Z.of_nat n)
              (getMarkdownFiles app)
              {| fieldsMap := []; processedFiles := 0; visited := [];
                 reported := []; threw := false |} Hshow Hquiet) as [E _].
  fold n in E |- *. rewrite E. simpl. split; [reflexivity|].
  apply Forall_forall. intros q Hq. apply in_map_iff in Hq.
  destruct Hq as [k [<- Hk]]. apply countUp_range in Hk.
  apply percentage_bounds; lia.
Qed.

(** Without a callback nothing is reported. *)
Theorem progress_without_callback app settings now now' s :
  progress (getFields app settings false now now' s) = [].
Proof.
  unfold getFields. destruct (_ && _); [reflexivity|].
  assert (reported (scanAll app settings false) = []) as E
    by (unfold scanAll; now rewrite reported_scanFiles_none).
  destruct (threw (scanAll app settings false)); exact E.
Qed.

(** C9: with the progress flag off and a callback supplied, a rebuild over
    one document with a header and one without still invokes the callback,
    once, for the document without a header, with 100 percent. *)
Theorem progress_flag_ignored_without_header :
  showProgress quiet = false /\
  progress (getFields xA_C quiet true 1000 1000 initialState) =
    [percentage 2 2].
Proof. split; reflexivity. Qed.

(** ** Order of the returned sequence *)

Section SortOrder.
Context {A : Type} (key : A -> Z) (cmp : A -> A -> Z).
Hypothesis cmp_key : forall a b, cmp a b = key b - key a.

Local Abbreviation above := (fun a b : A => key b <= key a).

Lemma sortInsert_HdRel x y l :
  above y x -> HdRel above y l -> HdRel above y (sortInsert cmp x l).
Proof.
  intros Hyx Hl. destruct l as [|z l]; simpl; [now constructor|].
  destruct (0 <? cmp x z); constructor; [|exact Hyx].
  now inversion Hl.
Qed.

Lemma sortInsert_Sorted x l :
  Sorted above l -> Sorted above (sortInsert cmp x l).
Proof.
  induction 1 as [|y l Hl IH Hy]; simpl; [repeat constructor|].
  destruct (0 <? cmp x y) eqn:E.
  - constructor; [exact IH|]. apply sortInsert_HdRel; [|exact Hy].
    apply Z.ltb_lt in E. rewrite cmp_key in E. cbv beta. lia.
  - constructor; [now constructor|]. constructor.
    apply Z.ltb_ge in E. rewrite cmp_key in E. cbv beta. lia.
Qed.

Lemma jsSort_Sorted l : Sorted above (jsSort cmp l).
Proof.
  induction l as [|x l IH]; simpl; [constructor|].
  now apply sortInsert_Sorted.
Qed.

Lemma sortInsert_stable n x l :
  filter (fun a => key a =? n) (sortInsert cmp x l) =
  filter (fun a => key a =? n) (x :: l).
Proof.
  induction l as [|y l IH]; [reflexivity|].
  cbn [sortInsert]. destruct (0 <? cmp x y) eqn:E; [|reflexivity].
  apply Z.ltb_lt in E. rewrite cmp_key in E.
  cbn [filter] in *. rewrite IH.
  destruct (Z.eqb_spec (key x) n); destruct (Z.eqb_spec (key y) n);
    try reflexivity. lia.
Qed.

Lemma jsSort_stable n l :
  filter (fun a => key a =? n) (jsSort cmp l) = filter (fun a => key a =? n) l.
Proof.
  induction l as [|x l IH]; [reflexivity|].
  cbn [jsSort]. rewrite sortInsert_stable. cbn [filter]. now rewrite IH.
Qed.
End SortOrder.

(** X6: what a rebuild stores is sorted by count, largest first, and records
    of equal count keep the order in which [Object.values] lists them. *)
Theorem rebuiltFields_descending_stable settings m :
  descending (rebuiltFields settings m) /\
  forall n,
    filter (fun r => count r =? n) (rebuiltFields settings m) =
    filter (fun r => count r =? n)
      (objectValues (if analyzeValues settings
                     then map (fun e => (fst e, trimTopValues (snd e))) m
                     else m)).
Proof.
  unfold rebuiltFields, descending. split.
  - apply (jsSort_Sorted count byCountDesc). reflexivity.
  - intros n. apply (jsSort_stable count byCountDesc). reflexivity.
Qed.

(** C4: after a rebuild over one document declaring [x] and [y], the
    creation of a second document declaring [y] leaves the cache in the order
    [x] (count 1), [y] (count 2); the next read is served from the cache and
    returns that sequence, which is not sorted by count descending. *)
Theorem getFields_unsorted_after_create :
  let s := run DEFAULT_SETTINGS initialState
             [Read xyA false 1000 1000;
              Created xyAB 2000 (AFile (mdFile "B.md"))] in
  let r := getFields xyAB DEFAULT_SETTINGS false 3000 3000 s in
  scanned r = [] /\
  map (fun f => (name f, count f)) (returned r) = [("x", 1); ("y", 2)] /\
  ~ descending (returned r).
Proof.
  cbv zeta. split; [reflexivity|]. split; [reflexivity|].
  remember (returned _) as l eqn:El. vm_compute in El. subst l.
  intros H. inversion H as [|a l Hs Hh]; subst.
  inversion Hh as [|b l' Hle]; subst. simpl in Hle. lia.
Qed.

(** ** Owners after each handler *)

Lemma hasPath_true p l : hasPath p l = true <-> In p (map path l).
Proof.
  unfold hasPath. rewrite existsb_exists, in_map_iff. split.
  - intros [f [Hin E]]. apply String.eqb_eq in E. now exists f.
  - intros [f [E Hin]]. exists f. split; [exact Hin | now apply String.eqb_eq].
Qed.

Lemma paths_pushFile file r p :
  In p (map path (files (pushFile file r))) <->
  In p (map path (files r)) \/ p = path file.
Proof.
  unfold pushFile. destruct (hasPath (path file) (files r)) eqn:E.
  - apply hasPath_true in E. split; [auto | intros [H | ->]; auto].
  - simpl. rewrite map_app, in_app_iff. simpl. intuition congruence.
Qed.

Lemma In_updateField_inv key g c r :
  In r (updateField key g c) ->
  In r c \/ exists r0, In r0 c /\ name r0 = key /\ r = g r0.
Proof.
  induction c as [|f c IH]; simpl; [tauto|].
  destruct (String.eqb_spec (name f) key) as [E|E]; simpl.
  - intros [<- | H]; [right; exists f; auto | auto].
  - intros [<- | H]; [auto|].
    destruct (IH H) as [H' | [r0 [H1 H2]]]; [auto|].
    right. exists r0. auto.
Qed.

Lemma In_updateField_fwd key g c r :
  In r c ->
  In r (updateField key g c) \/ (name r = key /\ In (g r) (updateField key g c)).
Proof.
  induction c as [|f c IH]; simpl; [tauto|].
  destruct (String.eqb_spec (name f) key) as [E|E]; simpl.
  - intros [<- | H]; [right; auto | auto].
  - intros [<- | H]; [auto|].
    destruct (IH H) as [H' | [H1 H2]]; auto.
Qed.

Lemma map_name_updateField key g c :
  (forall r, name (g r) = name r) ->
  map name (updateField key g c) = map name c.
Proof.
  intros Hg. induction c as [|f c IH]; simpl; [reflexivity|].
  destruct (String.eqb (name f) key); simpl; [now rewrite Hg | now rewrite IH].
Qed.

Lemma findField_None key c : findField key c = None <-> ~ In key (map name c).
Proof.
  unfold findField. split.
  - intros H Hin. apply in_map_iff in Hin. destruct Hin as [r [E Hr]].
    pose proof (find_none _ _ H r Hr) as Hn. simpl in Hn.
    apply String.eqb_neq in Hn. congruence.
  - intros H. destruct (find _ c) as [r|] eqn:E; [|reflexivity].
    apply find_some in E. destruct E as [Hr E]. apply String.eqb_eq in E.
    exfalso. apply H. apply in_map_iff. now exists r.
Qed.

Lemma owner_addKey file key c k p :
  owner (addKey file key c) k p <-> owner c k p \/ (k = key /\ p = path file).
Proof.
  split.
  - intros [r [Hr [Hn Hp]]]. unfold addKey in Hr.
    assert (forall r0,
              In r0 (match findField key c with
                     | Some _ => c
                     | None => c ++ [{| name := key; count := 0; files := [];
                                        valueStats := None |}]
                     end) ->
              In p (map path (files r0)) -> In r0 c) as Hold.
    { intros r0 H0 Hp0. destruct (findField key c); [exact H0|].
      apply in_app_or in H0. destruct H0 as [H0 | [<- | []]]; [exact H0|].
      simpl in Hp0. contradiction. }
    apply In_updateField_inv in Hr.
    destruct Hr as [Hr | [r0 [Hr0 [Hk ->]]]].
    + left. exists r. auto.
    + rewrite name_pushFile in Hn. apply paths_pushFile in Hp.
      destruct Hp as [Hp | ->]; [|right; split; congruence].
      left. exists r0. auto.
  - intros [[r [Hr [Hn Hp]]] | [-> ->]].
    + assert (In r (match findField key c with
                    | Some _ => c
                    | None => c ++ [{| name := key; count := 0; files := [];
                                       valueStats := None |}]
                    end)) as Hr1
        by (destruct (findField key c); [exact Hr | apply in_or_app; now left]).
      destruct (In_updateField_fwd key (pushFile file) _ r Hr1) as [H | [_ H]].
      * exists r. auto.
      * exists (pushFile file r). split; [exact H|].
        rewrite name_pushFile. split; [exact Hn|].
        apply paths_pushFile. now left.
    + pose proof (findField_addKey file key key c) as E.
      rewrite String.eqb_refl in E.
      pose proof (findField_name _ _ _ E) as Hn.
      apply find_some in E. destruct E as [Hin _].
      eexists. split; [exact Hin|]. split; [exact Hn|].
      apply paths_pushFile. now right.
Qed.

Lemma owner_addEntries settings file es : forall c k p,
  owner (addEntries settings file es c) k p <->
  owner c k p \/
  (p = path file /\
   In k (filter (fun k => negb (ignoreSetHas settings k)) (map fst es))).
Proof.
  unfold addEntries. induction es as [|e es IH]; intros c k p; simpl.
  - tauto.
  - rewrite IH. destruct (ignoreSetHas settings (fst e)) eqn:E; simpl.
    + tauto.
    + rewrite owner_addKey. intuition congruence.
Qed.

Lemma owner_addFileToCache app settings now file s k p :
  owner (cache (addFileToCache app settings now file s)) k p <->
  owner (cache s) k p \/ (p = path file /\ In k (keysOf app settings file)).
Proof.
  unfold addFileToCache, keysOf.
  destruct (frontmatterOf app file); simpl.
  - apply owner_addEntries.
  - tauto.
Qed.

Lemma In_removeFile p0 c r :
  In r (removeFile p0 c) <->
  exists r0, In r0 c /\ r = withoutFile p0 r0 /\ files r <> [].
Proof.
  unfold removeFile. rewrite filter_In, in_map_iff. split.
  - intros [[r0 [<- Hr0]] Hc]. exists r0. split; [exact Hr0|].
    split; [reflexivity|]. apply Z.ltb_lt in Hc. simpl in *.
    intros E. rewrite E in Hc. simpl in Hc. lia.
  - intros [r0 [Hr0 [-> Hne]]]. split; [now exists r0|].
    apply Z.ltb_lt. simpl in *.
    destruct (filter _ (files r0)); [congruence | simpl; lia].
Qed.

Lemma paths_withoutFile p0 r p :
  In p (map path (files (withoutFile p0 r))) <->
  In p (map path (files r)) /\ p <> p0.
Proof.
  simpl. rewrite !in_map_iff. split.
  - intros [f [<- Hf]]. apply filter_In in Hf. destruct Hf as [Hf E].
    apply negb_true_iff, String.eqb_neq in E. split; [now exists f | exact E].
  - intros [[f [<- Hf]] Hne]. exists f. split; [reflexivity|].
    apply filter_In. split; [exact Hf|].
    now apply negb_true_iff, String.eqb_neq.
Qed.

Lemma owner_removeFile p0 c k p :
  owner (removeFile p0 c) k p <-> owner c k p /\ p <> p0.
Proof.
  split.
  - intros [r [Hr [Hn Hp]]]. apply In_removeFile in Hr.
    destruct Hr as [r0 [Hr0 [-> _]]]. apply paths_withoutFile in Hp.
    split; [|tauto]. exists r0. tauto.
  - intros [[r [Hr [Hn Hp]]] Hne].
    assert (In p (map path (files (withoutFile p0 r)))) as Hp'
      by (apply paths_withoutFile; auto).
    exists (withoutFile p0 r). split; [|auto].
    apply In_removeFile. exists r. split; [exact Hr|]. split; [reflexivity|].
    intros E. rewrite E in Hp'. contradiction.
Qed.

Lemma paths_renameIn f oldPath r p :
  In p (map path (files (renameIn f oldPath r))) <->
  (In p (map path (files r)) /\ p <> oldPath) \/
  (p = path f /\ In oldPath (map path (files r))).
Proof.
  simpl. rewrite map_map. split.
  - intros H. apply in_map_iff in H. destruct H as [g [E Hg]].
    assert (In (path g) (map path (files r))) as Hin by now apply in_map.
    destruct (String.eqb_spec (path g) oldPath) as [Eo|Eo].
    + right. split; congruence.
    + left. split; congruence.
  - intros [[H Hne] | [-> H]]; apply in_map_iff in H;
      destruct H as [g [E Hg]]; apply in_map_iff; exists g;
      (split; [|exact Hg]);
      destruct (String.eqb_spec (path g) oldPath); congruence.
Qed.

Lemma owner_rename f oldPath c k p :
  owner (map (renameIn f oldPath) c) k p <->
  (owner c k p /\ p <> oldPath) \/ (p = path f /\ owner c k oldPath).
Proof.
  split.
  - intros [r [Hr [Hn Hp]]]. apply in_map_iff in Hr.
    destruct Hr as [r0 [<- Hr0]]. apply paths_renameIn in Hp.
    destruct Hp as [[Hp Hne] | [-> Ho]].
    + left. split; [|exact Hne]. now exists r0.
    + right. split; [reflexivity|]. now exists r0.
  - intros [[[r [Hr [Hn Hp]]] Hne] | [-> [r [Hr [Hn Hp]]]]];
      exists (renameIn f oldPath r);
      (split; [now apply in_map|]); (split; [exact Hn|]);
      apply paths_renameIn; auto.
Qed.

(** ** Tidiness after each handler *)

Lemma nonEmpty_pushFile file r : files (pushFile file r) <> [].
Proof.
  unfold pushFile. destruct (hasPath _ _) eqn:E.
  - apply hasPath_true in E. destruct (files r); [contradiction | discriminate].
  - simpl. destruct (files r); discriminate.
Qed.

Lemma tidy_addKey file key c : tidy c -> tidy (addKey file key c).
Proof.
  intros [Hn [Hc [Hd He]]]. repeat split.
  - unfold addKey.
    rewrite map_name_updateField by apply name_pushFile.
    destruct (findField key c) eqn:E; [exact Hn|].
    rewrite map_app. simpl. apply NoDup_snoc; [exact Hn|].
    now apply findField_None.
  - unfold addKey. apply updateField_Forall; [apply counted_pushFile|].
    destruct (findField key c); [exact Hc|].
    apply Forall_app. split; [exact Hc|].
    constructor; [reflexivity | constructor].
  - unfold addKey. apply updateField_Forall; [apply distinct_pushFile|].
    destruct (findField key c); [exact Hd|].
    apply Forall_app. split; [exact Hd|].
    constructor; [constructor | constructor].
  - unfold addKey. destruct (findField key c) eqn:E.
    + apply Forall_forall. intros r Hr. apply In_updateField_inv in Hr.
      rewrite Forall_forall in He.
      destruct Hr as [Hr | [r0 [_ [_ ->]]]]; [auto | apply nonEmpty_pushFile].
    + rewrite updateField_app_absent by exact E. simpl.
      rewrite String.eqb_refl. apply Forall_app. split; [exact He|].
      constructor; [apply nonEmpty_pushFile | constructor].
Qed.

Lemma tidy_addEntries settings file es : forall c,
  tidy c -> tidy (addEntries settings file es c).
Proof.
  unfold addEntries. induction es as [|e es IH]; simpl; intros c H; [exact H|].
  apply IH. destruct (ignoreSetHas settings (fst e)); [exact H|].
  now apply tidy_addKey.
Qed.

Lemma tidy_addFileToCache app settings now file s :
  tidy (cache s) -> tidy (cache (addFileToCache app settings now file s)).
Proof.
  unfold addFileToCache. destruct (frontmatterOf app file); simpl; [|auto].
  apply tidy_addEntries.
Qed.

Lemma tidy_removeFile p0 c : tidy c -> tidy (removeFile p0 c).
Proof.
  intros [Hn [Hc [Hd He]]]. repeat split.
  - unfold removeFile. apply NoDup_map_filter.
    rewrite map_map. simpl. exact Hn.
  - apply Forall_forall. intros r Hr. apply In_removeFile in Hr.
    destruct Hr as [r0 [_ [-> _]]]. apply counted_withoutFile.
  - apply Forall_forall. intros r Hr. apply In_removeFile in Hr.
    destruct Hr as [r0 [Hr0 [-> _]]]. apply distinct_withoutFile.
    rewrite Forall_forall in Hd. auto.
  - apply Forall_forall. intros r Hr. apply In_removeFile in Hr.
    destruct Hr as [r0 [_ [_ H]]]. exact H.
Qed.

Lemma tidy_rename f oldPath c :
  tidy c -> (forall k, ~ owner c k (path f)) ->
  tidy (map (renameIn f oldPath) c).
Proof.
  intros [Hn [Hc [Hd He]]] Hfresh. repeat split.
  - rewrite map_map. simpl. exact Hn.
  - apply Forall_map. eapply Forall_impl; [|exact Hc].
    intros r. apply counted_renameIn.
  - apply Forall_map. rewrite Forall_forall in *. intros r Hr.
    apply distinct_renameIn; [auto|].
    intros Hp. apply (Hfresh (name r)). exists r. auto.
  - apply Forall_map. eapply Forall_impl; [|exact He].
    intros r H. simpl in *. destruct (files r); [congruence | simpl; discriminate].
Qed.

(** ** One notification *)

(** Each handler keeps the index in step with the collection. *)
Lemma represents_handle settings app s e app' :
  represents app settings (cache s) ->
  hostStep settings app e app' ->
  represents app' settings (cache (handle settings s e)).
Proof.
  intros [Ht Ho] Hstep.
  destruct Hstep as [app app' now f Hmd Hd | app app' now f Hmd Hd
                    | app app' f Hmd Hd | app app' f oldPath Hmd Hfresh Hd];
    simpl.
  - rewrite Hmd. simpl. split; [now apply tidy_addFileToCache|].
    intros k p. rewrite owner_addFileToCache, Hd, Ho. reflexivity.
  - unfold updateCacheForFile. rewrite Hmd. simpl. split.
    + apply tidy_addFileToCache. simpl. now apply tidy_removeFile.
    + intros k p. rewrite owner_addFileToCache. simpl.
      rewrite owner_removeFile, Hd, Ho. reflexivity.
  - rewrite Hmd. simpl. split; [now apply tidy_removeFile|].
    intros k p. rewrite owner_removeFile, Hd, Ho. reflexivity.
  - rewrite Hmd. simpl. split.
    + apply tidy_rename; [exact Ht|]. intros k H. apply Ho in H.
      now apply (Hfresh k).
    + intros k p. rewrite owner_rename, Hd, !Ho. reflexivity.
Qed.

(** ** Two tidy indexes with the same owners *)

Lemma same_name_same_record c r r' :
  NoDup (map name c) -> In r c -> In r' c -> name r = name r' -> r = r'.
Proof.
  induction c as [|f c IH]; simpl; [tauto|].
  intros Hn Hr Hr' E. inversion Hn as [|? ? Hnot Hn']; subst.
  destruct Hr as [-> | Hr]; destruct Hr' as [-> | Hr']; auto.
  - exfalso. apply Hnot. rewrite E. now apply in_map.
  - exfalso. apply Hnot. rewrite <- E. now apply in_map.
Qed.

Lemma covers_of_owners c1 c2 :
  tidy c1 -> tidy c2 ->
  (forall k p, owner c1 k p <-> owner c2 k p) ->
  covers c1 c2.
Proof.
  intros [Hn1 [Hc1 [Hd1 He1]]] [Hn2 [Hc2 [Hd2 He2]]] Ho r1 Hr1.
  rewrite Forall_forall in *.
  assert (exists p0, In p0 (map path (files r1))) as [p0 Hp0].
  { specialize (He1 r1 Hr1). destruct (files r1) as [|f l]; [congruence|].
    exists (path f). now left. }
  assert (owner c1 (name r1) p0) as H0 by (exists r1; auto).
  apply Ho in H0. destruct H0 as [r2 [Hr2 [En _]]].
  assert (forall p, In p (map path (files r1)) <-> In p (map path (files r2)))
    as Hsame.
  { intros p. split; intros Hp.
    - assert (owner c1 (name r1) p) as H by (exists r1; auto).
      apply Ho in H. destruct H as [r [Hr [E Hpr]]].
      assert (r = r2) as -> by (apply (same_name_same_record c2); congruence).
      exact Hpr.
    - assert (owner c2 (name r1) p) as H by (exists r2; auto).
      apply Ho in H. destruct H as [r [Hr [E Hpr]]].
      assert (r = r1) as -> by (apply (same_name_same_record c1); congruence).
      exact Hpr. }
  exists r2. split; [exact Hr2|]. split; [exact En|]. split; [|exact Hsame].
  rewrite (Hc1 r1 Hr1), (Hc2 r2 Hr2). f_equal.
  rewrite <- (length_map path (files r1)), <- (length_map path (files r2)).
  apply Permutation_length.
  apply NoDup_Permutation;
    [apply (Hd2 r2 Hr2) | apply (Hd1 r1 Hr1) | intros p; symmetry; apply Hsame].
Qed.

Lemma sameIndex_of_represents app settings c1 c2 :
  represents app settings c1 -> represents app settings c2 -> sameIndex c1 c2.
Proof.
  intros [Ht1 Ho1] [Ht2 Ho2].
  split; apply covers_of_owners; auto; intros k p; rewrite Ho1, Ho2; reflexivity.
Qed.

(** ** A rebuild adds every document in turn *)

Lemma find_findField key m :
  keyedByName m ->
  option_map snd (find (fun e => String.eqb (fst e) key) m) =
  findField key (map snd m).
Proof.
  unfold findField.
  induction 1 as [|[k f] m Hk Hm IH]; simpl in *; [reflexivity|].
  rewrite Hk. destruct (String.eqb k key); [reflexivity | exact IH].
Qed.

Lemma lookupField_findField key m :
  keyedByName m ->
  match lookupField key m with
  | OwnRecord f => findField key (map snd m) = Some f
  | _ => findField key (map snd m) = None
  end.
Proof.
  intros Hm. rewrite <- (find_findField key m Hm). unfold lookupField.
  destruct (find _ m); [reflexivity|].
  now destruct (isInherited key).
Qed.

Lemma map_snd_updateEntry key g m :
  keyedByName m -> map snd (updateEntry key g m) = updateField key g (map snd m).
Proof.
  induction 1 as [|[k f] m Hk Hm IH]; simpl in *; [reflexivity|].
  rewrite Hk. destruct (String.eqb k key); simpl; [reflexivity | now rewrite IH].
Qed.

Lemma keyedByName_updateEntry key g m :
  (forall r, name (g r) = name r) ->
  keyedByName m -> keyedByName (updateEntry key g m).
Proof.
  intros Hg. unfold keyedByName.
  induction 1 as [|[k f] m Hk Hm IH]; simpl in *; [constructor|].
  destruct (String.eqb k key); constructor; simpl; auto.
  now rewrite Hg.
Qed.

Lemma keyedByName_scanEntry settings file m e m' :
  keyedByName m -> scanEntry settings file m e = Some m' -> keyedByName m'.
Proof.
  intros Hm. unfold scanEntry.
  destruct (ignoreSetHas settings (fst e)); [intros [= <-]; exact Hm|].
  destruct (lookupField (fst e) m); intros [= <-];
    (apply keyedByName_updateEntry; [intros; apply name_countFile|]);
    [exact Hm|].
  apply Forall_app. split; [exact Hm|]. repeat constructor.
Qed.

Lemma sameShape_findField key c c' :
  sameShape c c' -> (findField key c = None <-> findField key c' = None).
Proof.
  intros H. rewrite !findField_None.
  assert (map name c = map name c') as ->; [|reflexivity].
  unfold sameShape in H.
  apply (f_equal (map (fun x : string * Z * list TFile => fst (fst x)))) in H.
  now rewrite !map_map in H.
Qed.

Lemma sameShape_updateField key g g' : forall c c',
  (forall r r', shape r = shape r' -> shape (g r) = shape (g' r')) ->
  sameShape c c' ->
  sameShape (updateField key g c) (updateField key g' c').
Proof.
  unfold sameShape. intros c c' Hg.
  revert c'. induction c as [|f c IH]; intros [|f' c']; cbn [map updateField];
    try discriminate; [reflexivity|].
  intros H.
  assert (shape f = shape f' /\ map shape c = map shape c') as [Hf Hc]
    by (split; congruence).
  assert (name f = name f') as En by (unfold shape in Hf; congruence).
  rewrite <- En. destruct (String.eqb (name f) key); cbn [map].
  - f_equal; [now apply Hg | exact Hc].
  - f_equal; [exact Hf | now apply IH].
Qed.

Lemma shape_countFile_pushFile settings file v r r' :
  shape r = shape r' ->
  shape (countFile settings file v r) = shape (pushFile file r').
Proof.
  unfold shape, countFile, pushFile. intros [= En Ec Ef].
  rewrite Ef. destruct (hasPath _ _); simpl; congruence.
Qed.

Lemma shape_pushFile file r r' :
  shape r = shape r' -> shape (pushFile file r) = shape (pushFile file r').
Proof.
  unfold shape, pushFile. intros [= En Ec Ef].
  rewrite Ef. destruct (hasPath _ _); simpl; congruence.
Qed.

Lemma sameShape_addKey file key c c' :
  sameShape c c' -> sameShape (addKey file key c) (addKey file key c').
Proof.
  intros H. unfold addKey.
  apply sameShape_updateField; [apply shape_pushFile|].
  pose proof (sameShape_findField key c c' H) as Hf.
  destruct (findField key c) eqn:E; destruct (findField key c') eqn:E';
    try exact H.
  - destruct Hf as [_ Hf]. discriminate Hf. reflexivity.
  - destruct Hf as [Hf _]. discriminate Hf. reflexivity.
  - unfold sameShape in *. rewrite !map_app. now f_equal.
Qed.

Lemma sameShape_scanEntry settings file m e c m' :
  keyedByName m ->
  sameShape (map snd m) c ->
  scanEntry settings file m e = Some m' ->
  sameShape (map snd m')
            (if ignoreSetHas settings (fst e) then c else addKey file (fst e) c).
Proof.
  intros Hm H. unfold scanEntry.
  destruct (ignoreSetHas settings (fst e)); [intros [= <-]; exact H|].
  pose proof (lookupField_findField (fst e) m Hm) as Hl.
  pose proof (sameShape_findField (fst e) _ _ H) as Hf.
  unfold addKey.
  destruct (lookupField (fst e) m); intros [= <-].
  - destruct (findField (fst e) c) eqn:E'.
    + rewrite map_snd_updateEntry by exact Hm.
      apply sameShape_updateField; [apply shape_countFile_pushFile | exact H].
    + destruct Hf as [_ Hf]. rewrite Hf in Hl by reflexivity. discriminate.
  - destruct (findField (fst e) c) eqn:E'.
    + destruct Hf as [Hf _]. discriminate Hf. exact Hl.
    + rewrite map_snd_updateEntry
        by (apply Forall_app; split; [exact Hm | repeat constructor]).
      apply sameShape_updateField; [apply shape_countFile_pushFile|].
      unfold sameShape in *. rewrite !map_app. simpl. now f_equal.
Qed.

Lemma sameShape_scanEntries settings file es : forall m c m',
  keyedByName m ->
  sameShape (map snd m) c ->
  scanEntries settings file es m = Some m' ->
  keyedByName m' /\
  sameShape (map snd m') (addEntries settings file es c).
Proof.
  unfold addEntries. induction es as [|e es IH]; simpl; intros m c m' Hm H;
    [intros [= <-]; auto|].
  destruct (scanEntry settings file m e) as [m1|] eqn:E; [|discriminate].
  apply IH; [now apply (keyedByName_scanEntry settings file m e)|].
  now apply (sameShape_scanEntry settings file m e).
Qed.

Lemma sameShape_scanFile app settings callback total now sc f s :
  keyedByName (fieldsMap sc) ->
  sameShape (map snd (fieldsMap sc)) (cache s) ->
  threw (scanFile app settings callback total sc f) = false ->
  keyedByName (fieldsMap (scanFile app settings callback total sc f)) /\
  sameShape (map snd (fieldsMap (scanFile app settings callback total sc f)))
            (cache (addFileToCache app settings now f s)).
Proof.
  intros Hm H. unfold scanFile, addFileToCache.
  destruct (threw sc) eqn:Ht; [congruence|].
  destruct (frontmatterOf app f); simpl; [|auto].
  destruct (scanEntries settings f _ (fieldsMap sc)) as [m|] eqn:E; simpl;
    [|discriminate].
  intros _. revert E. now apply sameShape_scanEntries.
Qed.

Lemma sameShape_scanFiles app settings callback total now fs : forall sc s,
  keyedByName (fieldsMap sc) ->
  sameShape (map snd (fieldsMap sc)) (cache s) ->
  threw (fold_left (scanFile app settings callback total) fs sc) = false ->
  keyedByName
    (fieldsMap (fold_left (scanFile app settings callback total) fs sc)) /\
  sameShape
    (map snd (fieldsMap (fold_left (scanFile app settings callback total) fs sc)))
    (cache (addAll app settings now fs s)).
Proof.
  unfold addAll. induction fs as [|f fs IH]; simpl; intros sc s Hm H Ht; [auto|].
  pose proof (scanFiles_quiet _ _ _ _ _ _ Ht) as Ht1.
  destruct (sameShape_scanFile app settings callback total now sc f s Hm H Ht1).
  now apply IH.
Qed.

(** Before trimming and sorting, the own records a rebuild that does not
    throw has collected are, in names, counts and owners and in insertion
    order, those that adding every document in turn to an empty cache
    produces. *)
Theorem scanAll_adds_every_document app settings callback now :
  ordinaryNames app settings = true ->
  keyedByName (fieldsMap (scanAll app settings callback)) /\
  sameShape (map snd (fieldsMap (scanAll app settings callback)))
            (cache (addAll app settings now (getMarkdownFiles app) initialState)).
Proof.
  intros Ho. apply (scanAll_quiet app settings callback) in Ho.
  unfold scanAll in *.
  apply sameShape_scanFiles; [constructor | reflexivity | exact Ho].
Qed.

(** ** A rebuild represents the collection *)

Lemma sameShape_In c c' r :
  sameShape c c' -> In r c -> exists r', In r' c' /\ shape r' = shape r.
Proof.
  unfold sameShape. intros H Hr.
  apply (in_map shape) in Hr. rewrite H in Hr.
  apply in_map_iff in Hr. destruct Hr as [r' [E Hr']]. now exists r'.
Qed.

Lemma sameShape_sym c c' : sameShape c c' -> sameShape c' c.
Proof. unfold sameShape. congruence. Qed.

Lemma owner_sameShape c c' k p : sameShape c c' -> owner c k p -> owner c' k p.
Proof.
  intros H [r [Hr [Hn Hp]]].
  destruct (sameShape_In c c' r H Hr) as [r' [Hr' E]].
  unfold shape in E. injection E as En Ec Ef.
  exists r'. rewrite Ef, En. auto.
Qed.

Lemma Forall_sameShape (P : FrontmatterField -> Prop) c c' :
  (forall r r', shape r = shape r' -> P r -> P r') ->
  sameShape c c' -> Forall P c -> Forall P c'.
Proof.
  intros HP H Hc. apply Forall_forall. intros r' Hr'.
  destruct (sameShape_In c' c r' (sameShape_sym _ _ H) Hr') as [r [Hr E]].
  rewrite Forall_forall in Hc. apply (HP r r' E). auto.
Qed.

Lemma tidy_sameShape c c' : sameShape c c' -> tidy c -> tidy c'.
Proof.
  intros H [Hn [Hc [Hd He]]]. repeat split.
  - assert (map name c' = map name c) as ->; [|exact Hn].
    unfold sameShape in H.
    apply (f_equal (map (fun x : string * Z * list TFile => fst (fst x)))) in H.
    now rewrite !map_map in H.
  - apply (Forall_sameShape counted c c'); auto.
    unfold shape, counted. intros r r' [= En Ec Ef]. congruence.
  - apply (Forall_sameShape distinctOwners c c'); auto.
    unfold shape, distinctOwners. intros r r' [= En Ec Ef]. congruence.
  - apply (Forall_sameShape (fun r => files r <> []) c c'); auto.
    unfold shape. intros r r' [= En Ec Ef]. congruence.
Qed.

Lemma tidy_Permutation c c' : Permutation c c' -> tidy c -> tidy c'.
Proof.
  intros H [Hn [Hc [Hd He]]]. repeat split.
  - eapply Permutation_NoDup; [|exact Hn]. now apply Permutation_map.
  - eapply Permutation_Forall; eassumption.
  - eapply Permutation_Forall; eassumption.
  - eapply Permutation_Forall; eassumption.
Qed.

Lemma owner_Permutation c c' k p : Permutation c c' -> owner c k p -> owner c' k p.
Proof.
  intros H [r [Hr Hrest]]. exists r. split; [|exact Hrest].
  eapply Permutation_in; eassumption.
Qed.

Lemma shape_trimTopValues r : shape (trimTopValues r) = shape r.
Proof. unfold trimTopValues, shape. destruct (valueStats r); reflexivity. Qed.

(** The stored sequence is a permutation, up to value statistics, of the
    scanned records. *)
Lemma rebuiltFields_shape settings m :
  exists c, Permutation c (rebuiltFields settings m) /\
            sameShape (map snd m) c.
Proof.
  unfold rebuiltFields. eexists. split.
  - symmetry. rewrite jsSort_perm. apply objectValues_perm.
  - unfold sameShape.
    destruct (analyzeValues settings); [|reflexivity].
    rewrite !map_map. apply map_ext. intros e. simpl.
    symmetry. apply shape_trimTopValues.
Qed.

Lemma tidy_addAll app settings now fs : forall s,
  tidy (cache s) -> tidy (cache (addAll app settings now fs s)).
Proof.
  unfold addAll. induction fs as [|f fs IH]; simpl; intros s H; [exact H|].
  apply IH. now apply tidy_addFileToCache.
Qed.

Lemma owner_addAll app settings now fs : forall s k p,
  owner (cache (addAll app settings now fs s)) k p <->
  owner (cache s) k p \/
  exists f, In f fs /\ path f = p /\ In k (keysOf app settings f).
Proof.
  unfold addAll. induction fs as [|f fs IH]; simpl; intros s k p.
  - split; [auto | intros [H | [f [[] _]]]; exact H].
  - rewrite IH, owner_addFileToCache. split.
    + intros [[H | [-> H]] | [g [Hg H]]]; [auto | |].
      * right. exists f. auto.
      * right. exists g. auto.
    + intros [H | [g [[<- | Hg] [Hp Hk]]]]; [auto | |].
      * left. right. auto.
      * right. exists g. auto.
Qed.

(** What a rebuild stores is tidy and owns exactly what the collection
    declares. *)
Theorem rebuild_represents app settings callback :
  ordinaryNames app settings = true ->
  represents app settings
    (rebuiltFields settings (fieldsMap (scanAll app settings callback))).
Proof.
  intros Hord.
  destruct (rebuiltFields_shape settings (fieldsMap (scanAll app settings callback)))
    as [c [Hperm Hshape]].
  destruct (scanAll_adds_every_document app settings callback 0 Hord)
    as [_ Hadd].
  assert (sameShape (cache (addAll app settings 0 (getMarkdownFiles app)
                              initialState)) c) as H
    by (unfold sameShape in *; congruence).
  split.
  - apply (tidy_Permutation c); [exact Hperm|].
    apply (tidy_sameShape _ _ H). apply tidy_addAll.
    repeat split; constructor.
  - intros k p. split.
    + intros Ho. apply (owner_Permutation _ c) in Ho; [|now symmetry].
      apply (owner_sameShape _ _ k p (sameShape_sym _ _ H)) in Ho.
      apply owner_addAll in Ho. destruct Ho as [[r [[] _]] | Ho]. exact Ho.
    + intros Hd. apply (owner_Permutation c); [exact Hperm|].
      apply (owner_sameShape _ _ k p H). apply owner_addAll. now right.
Qed.

(** ** Incremental updates against a rebuild *)

(** One notification about a markdown document, handled on an index that
    represents the collection, yields the index a rebuild over the new
    collection stores: same records, counts and owning sets, order and value
    statistics aside (the part of C1 that holds). *)
Theorem incremental_step_matches_rebuild settings app s e app' callback :
  represents app settings (cache s) ->
  hostStep settings app e app' ->
  ordinaryNames app' settings = true ->
  sameIndex (cache (handle settings s e))
            (rebuiltFields settings (fieldsMap (scanAll app' settings callback))).
Proof.
  intros Hr Hstep Hord. apply (sameIndex_of_represents app' settings).
  - now apply (represents_handle settings app).
  - now apply rebuild_represents.
Qed.




(** ** Edits of the collection behind the notifications *)

Lemma keysOf_same app app' settings f g :
  frontmatterOf app' f = frontmatterOf app g ->
  keysOf app' settings f = keysOf app settings g.
Proof. unfold keysOf. now intros ->. Qed.

Lemma host_created_edit settings app app' now f :
  extension f = "md" ->
  getMarkdownFiles app' = getMarkdownFiles app ++ [f] ->
  (forall g, In g (getMarkdownFiles app) ->
             frontmatterOf app' g = frontmatterOf app g) ->
  hostStep settings app (Created app' now (AFile f)) app'.
Proof.
  intros Hmd Hfiles Hsame. constructor; [exact Hmd|].
  intros k p. unfold declares. rewrite Hfiles. split.
  - intros [g [Hg [Hp Hk]]]. apply in_app_or in Hg.
    destruct Hg as [Hg | [<- | []]]; [|right; auto].
    left. exists g. rewrite <- (keysOf_same app app' settings g g); auto.
  - intros [[g [Hg [Hp Hk]]] | [-> Hk]].
    + exists g. split; [apply in_or_app; now left|].
      rewrite (keysOf_same app app' settings g g); auto.
    + exists f. split; [apply in_or_app; right; now left | auto].
Qed.

Lemma host_changed_edit settings app app' now f :
  extension f = "md" ->
  getMarkdownFiles app' = getMarkdownFiles app ->
  In f (getMarkdownFiles app) ->
  (forall g, In g (getMarkdownFiles app) -> path g = path f -> g = f) ->
  (forall g, In g (getMarkdownFiles app) -> path g <> path f ->
             frontmatterOf app' g = frontmatterOf app g) ->
  hostStep settings app (Changed app' now f) app'.
Proof.
  intros Hmd Hfiles Hf Hone Hsame. constructor; [exact Hmd|].
  intros k p. unfold declares. rewrite Hfiles. split.
  - intros [g [Hg [Hp Hk]]]. destruct (string_dec (path g) (path f)) as [E|E].
    + right. rewrite (Hone g Hg E) in *. auto.
    + left. split; [|congruence]. exists g.
      rewrite <- (keysOf_same app app' settings g g); auto.
  - intros [[[g [Hg [Hp Hk]]] Hne] | [-> Hk]].
    + exists g. rewrite (keysOf_same app app' settings g g); auto.
      apply Hsame; congruence.
    + exists f. auto.
Qed.




Example scenario_three_documents :
  let s0 := after (getFields vaultABC DEFAULT_SETTINGS false 1000 1000 initialState) in
  map (fun r => (name r, count r, map path (files r))) (cache s0) =
    [("tags", 2, ["A.md"; "B.md"]); ("author.name", 1, ["A.md"])] /\
  map (fun r => (name r, count r, map path (files r)))
      (cache (run DEFAULT_SETTINGS s0 (map fst renameThenDelete))) =
    [("tags", 1, ["A2.md"]); ("author.name", 1, ["A2.md"])].
Proof. split; reflexivity. Qed.


Example scenario_value_analysis :
  map (fun r => (name r, count r, valueStats r))
      (returned (getFields statusVault analysing false 1000 1000 initialState)) =
  [("status", 5,
    Some {| unique := 2; topValues := [("done", 3); ("pending", 2)];
            typeDistribution := [("string", 5)] |})].
Proof. reflexivity. Qed.

(** X15: when a call of [getFields] resolves to the empty sequence, the
    next read rebuilds, whatever the clock: over a collection in which no
    document declares a field under a name inherited from
    [Object.prototype] it looks up every markdown file, resolves and stores
    what it returns with the clock read at the end. *)
Lemma empty_result_not_cached app settings callback now now' s app2 callback2 t t' :
  rejected (getFields app settings callback now now' s) = false ->
  returned (getFields app settings callback now now' s) = [] ->
  ordinaryNames app2 settings = true ->
  scanned (getFields app2 settings callback2 t t'
             (after (getFields app settings callback now now' s))) =
  getMarkdownFiles app2 /\
  rejected (getFields app2 settings callback2 t t'
              (after (getFields app settings callback now now' s))) = false /\
  after (getFields app2 settings callback2 t t'
           (after (getFields app settings callback now now' s))) =
  {| cache := returned (getFields app2 settings callback2 t t'
                          (after (getFields app settings callback now now' s)));
     lastUpdate := t' |}.
Proof.
  intros Hres H Hord. rewrite getFields_returned_cache in H by exact Hres.
  rewrite getFields_rebuilds by (try assumption; now left). simpl. auto.
Qed.

(** ** Pagination of the file list *)

Lemma firstn_add {A} (a b : nat) (l : list A) :
  firstn (a + b) l = firstn a l ++ firstn b (skipn a l).
Proof.
  revert l. induction a as [|a IH]; intros l; [reflexivity|].
  destruct l as [|x l]; simpl; [now destruct b | now rewrite IH].
Qed.

Lemma firstn_min_length {A} (n : nat) (l : list A) :
  firstn (Nat.min n (List.length l)) l = firstn n l.
Proof.
  destruct (Nat.le_ge_cases n (List.length l)) as [H|H].
  - now rewrite Nat.min_l.
  - rewrite Nat.min_r by exact H. now rewrite !firstn_all2.
Qed.

(** A page with a valid number is the plain window of [pageSize] files. *)
Lemma paginatedFiles_window fs currentPage pageSize :
  0 < pageSize -> 0 <= currentPage ->
  paginatedFiles fs currentPage pageSize =
  firstn (Z.to_nat pageSize)
         (skipn (Z.to_nat currentPage * Z.to_nat pageSize)%nat fs).
Proof.
  intros Hn Hp. unfold paginatedFiles, jsSlice.
  set (len := Z.of_nat (List.length fs)).
  assert (0 <= currentPage * pageSize) as Hs by nia.
  assert ((currentPage * pageSize <? 0) = false) as -> by (apply Z.ltb_ge; lia).
  assert ((currentPage * pageSize + pageSize <? 0) = false) as ->
    by (apply Z.ltb_ge; lia).
  rewrite <- Z2Nat.inj_mul by lia.
  destruct (Z.le_gt_cases (currentPage * pageSize) len) as [H|H].
  - rewrite (Z.min_l (currentPage * pageSize) len) by exact H.
    rewrite <- (firstn_min_length (Z.to_nat pageSize)).
    f_equal. rewrite length_skipn. unfold len. lia.
  - rewrite (Z.min_r (currentPage * pageSize) len) by lia.
    rewrite (Z.min_r (currentPage * pageSize + pageSize) len) by lia.
    rewrite Z.sub_diag. simpl.
    rewrite (skipn_all2 (n := Z.to_nat (currentPage * pageSize)))
      by (unfold len in H; lia).
    now destruct (Z.to_nat pageSize).
Qed.

Lemma totalPages_bounds len pageSize :
  0 < pageSize ->
  len <= totalPages len pageSize * pageSize /\
  (totalPages len pageSize - 1) * pageSize < len.
Proof.
  intros Hn. unfold totalPages.
  pose proof (Z.div_mod (- len) pageSize ltac:(lia)) as E.
  pose proof (Z.mod_pos_bound (- len) pageSize Hn) as B.
  split; nia.
Qed.

Lemma pages_concat {A} (fs : list A) (n m : nat) :
  List.concat (map (fun p => firstn n (skipn (p * n)%nat fs)) (seq 0 m)) =
  firstn (m * n)%nat fs.
Proof.
  induction m as [|m IH]; [reflexivity|].
  rewrite seq_S, map_app, concat_app, IH. simpl.
  rewrite app_nil_r, <- firstn_add. f_equal. lia.
Qed.

(** X21: for a positive page size the pages 0 to [totalPages] - 1 of the
    file list, one after the other, are the owning list itself, and no page
    holds more than [pageSize] files. *)
Theorem pages_partition_files fs pageSize :
  0 < pageSize ->
  List.concat
    (map (fun p => paginatedFiles fs (Z.of_nat p) pageSize)
         (seq 0 (Z.to_nat (totalPages (Z.of_nat (List.length fs)) pageSize)))) =
  fs /\
  forall p, (List.length (paginatedFiles fs p pageSize) <= Z.to_nat pageSize)%nat.
Proof.
  intros Hn. split.
  - rewrite (map_ext _ (fun p => firstn (Z.to_nat pageSize)
                                  (skipn (p * Z.to_nat pageSize)%nat fs))).
    + rewrite pages_concat. apply firstn_all2.
      destruct (totalPages_bounds (Z.of_nat (List.length fs)) pageSize Hn)
        as [H _].
      nia.
    + intros p. rewrite paginatedFiles_window by lia.
      now rewrite Nat2Z.id.
  - intros p. unfold paginatedFiles, jsSlice. cbv zeta.
    rewrite length_firstn.
    set (len := Z.of_nat (List.length fs)).
    assert (forall a b, (Nat.min a b <= a)%nat) as Hmin by (intros; lia).
    etransitivity; [apply Hmin|].
    destruct (p * pageSize <? 0) eqn:E1;
      destruct (p * pageSize + pageSize <? 0) eqn:E2;
      try apply Z.ltb_lt in E1; try apply Z.ltb_ge in E1;
      try apply Z.ltb_lt in E2; try apply Z.ltb_ge in E2; lia.
Qed.

Lemma press_in_range len pageSize p b :
  0 < pageSize -> 0 < len ->
  0 <= p < totalPages len pageSize ->
  0 <= press len pageSize p b < totalPages len pageSize.
Proof.
  intros Hn Hl Hp. unfold press, showsPrevious, showsNext.
  destruct (showsPagination len pageSize); [|exact Hp].
  destruct b.
  - destruct (0 <? p) eqn:E; [apply Z.ltb_lt in E; lia | exact Hp].
  - destruct (p <? totalPages len pageSize - 1) eqn:E;
      [apply Z.ltb_lt in E; lia | exact Hp].
Qed.

(** X22: for a positive page size and a field with at least one file,
    whatever buttons are pressed from page 0 the current page stays within
    0 and [totalPages] - 1 and the page shown is not empty. *)
Theorem pagination_stays_on_a_page fs pageSize buttons :
  0 < pageSize -> fs <> [] ->
  let len := Z.of_nat (List.length fs) in
  let p := fold_left (press len pageSize) buttons 0 in
  0 <= p < totalPages len pageSize /\
  paginatedFiles fs p pageSize <> [].
Proof.
  intros Hn Hne len p.
  assert (0 < len) as Hl
    by (unfold len; destruct fs; [congruence | simpl; lia]).
  destruct (totalPages_bounds len pageSize Hn) as [Hup Hlow].
  assert (0 <= p < totalPages len pageSize) as Hp.
  { assert (forall q, 0 <= q < totalPages len pageSize ->
              0 <= fold_left (press len pageSize) buttons q
                < totalPages len pageSize) as Hall.
    { induction buttons as [|b bs IH]; intros q Hq; simpl; [exact Hq|].
      apply IH. now apply press_in_range. }
    apply Hall. nia. }
  split; [exact Hp|].
  rewrite paginatedFiles_window by lia.
  rewrite <- Z2Nat.inj_mul by lia.
  assert (p * pageSize < len) as Hlt by nia.
  intros E. apply (f_equal (@List.length TFile)) in E.
  rewrite length_firstn, length_skipn in E. simpl in E. unfold len in Hlt. lia.
Qed.

(** ** Truncation of displayed values *)

Lemma length_append (a b : string) :
  String.length (a ++ b) = (String.length a + String.length b)%nat.
Proof. induction a as [|c a IH]; simpl; [reflexivity | now rewrite IH]. Qed.

Lemma length_substring_0 (n : nat) (s : string) :
  (n <= String.length s)%nat -> String.length (substring 0 n s) = n.
Proof.
  revert s. induction n as [|n IH]; intros s H.
  - now destruct s.
  - destruct s as [|c s]; simpl in *; [lia|]. rewrite IH; lia.
Qed.

Lemma substring_0_append (n : nat) (s t : string) :
  (n <= String.length s)%nat ->
  substring 0 n (substring 0 n s ++ t) = substring 0 n s.
Proof.
  revert s. induction n as [|n IH]; intros s H.
  - destruct s; simpl; now destruct t.
  - destruct s as [|c s]; simpl in *; [lia|]. rewrite IH; [reflexivity | lia].
Qed.

Lemma substring_0_length (s : string) : substring 0 (String.length s) s = s.
Proof. induction s as [|c s IH]; simpl; [reflexivity | now rewrite IH]. Qed.

Lemma substring_0_rest (n : nat) : forall s : string,
  (n <= String.length s)%nat ->
  (substring 0 n s ++ substring n (String.length s - n) s)%string = s.
Proof.
  induction n as [|n IH]; intros s H.
  - rewrite Nat.sub_0_r, substring_0_length. now destruct s.
  - destruct s as [|c s]; simpl in H; [lia|]. simpl. f_equal. apply IH. lia.
Qed.

(** X23: [truncate] returns the text itself when it is not longer than
    [maxLength]; otherwise it splits the text after its first [maxLength]
    characters and returns that head followed by three dots in place of the
    rest, which is not empty.  The result has at most [maxLength] + 3
    characters and starts with the first [maxLength] characters of the
    text. *)
Theorem truncate_bound text maxLength :
  (String.length (truncate text maxLength) <= maxLength + 3)%nat /\
  ((String.length text <= maxLength)%nat -> truncate text maxLength = text) /\
  ((maxLength < String.length text)%nat ->
   exists head tail,
     text = (head ++ tail)%string /\
     String.length head = maxLength /\
     tail <> EmptyString /\
     truncate text maxLength = (head ++ "...")%string /\
     String.length (truncate text maxLength) = (maxLength + 3)%nat) /\
  substring 0 maxLength (truncate text maxLength) = substring 0 maxLength text.
Proof.
  unfold truncate.
  destruct (Nat.ltb_spec maxLength (String.length text)) as [H|H].
  - rewrite length_append, length_substring_0 by lia. simpl.
    split; [lia|]. split; [lia|]. split; [|apply substring_0_append; lia].
    intros _. exists (substring 0 maxLength text),
      (substring maxLength (String.length text - maxLength) text).
    split; [symmetry; apply substring_0_rest; lia|].
    split; [apply length_substring_0; lia|].
    split; [|split; [reflexivity | lia]].
    intros E.
    pose proof (substring_0_rest maxLength text ltac:(lia)) as Hs.
    rewrite E in Hs. apply (f_equal String.length) in Hs.
    rewrite length_append, length_substring_0 in Hs by lia. simpl in Hs. lia.
  - split; [lia|]. split; [reflexivity|]. split; [lia | reflexivity].
Qed.

(** ** Looking a flattened key up again *)

Lemma splitDots_nonempty s : splitDots s <> [].
Proof.
  destruct s as [|c s]; simpl; [discriminate|].
  destruct (Ascii.eqb c "."); [discriminate|].
  destruct (splitDots s); discriminate.
Qed.

Lemma splitDots_plain k : hasDot k = false -> splitDots k = [k].
Proof.
  induction k as [|c k IH]; simpl; [reflexivity|].
  destruct (Ascii.eqb c "."); simpl; [discriminate|].
  intros H. now rewrite IH.
Qed.

Lemma splitDots_after_dot k s :
  hasDot k = false -> splitDots (k ++ String "." s) = k :: splitDots s.
Proof.
  induction k as [|c k IH]; simpl; [reflexivity|].
  destruct (Ascii.eqb c "."); simpl; [discriminate|].
  intros H. now rewrite (IH H).
Qed.

Lemma splitDots_segment k s :
  hasDot k = false -> splitDots (k ++ "." ++ s) = k :: splitDots s.
Proof. exact (splitDots_after_dot k s). Qed.

Lemma splitDots_dottedPath p :
  p <> [] -> Forall (fun k => hasDot k = false) p ->
  splitDots (dottedPath p) = p.
Proof.
  induction p as [|k p IH]; [congruence|].
  intros _ H. inversion H as [|? ? Hk Hp]; subst.
  destruct p as [|k' p].
  - simpl. now apply splitDots_plain.
  - rewrite dottedPath_cons by discriminate.
    rewrite splitDots_segment by exact Hk.
    f_equal. apply IH; [discriminate | exact Hp].
Qed.

(** The walk of [getNestedValue] along a list of segments. *)
Lemma walk_undefined parts :
  fold_left
    (fun acc part => match acc with
                     | Some v => getProperty v part
                     | None => None
                     end) parts None = None.
Proof. induction parts; simpl; auto. Qed.

Lemma leafPaths_head (o : object) p v :
  In (p, v) (leafPaths o) -> exists k q, p = k :: q /\ In k (keysOfObject o).
Proof.
  induction o as [|key v0 rest IH]; simpl; [tauto|].
  intros H. apply in_app_or in H. destruct H as [H | H].
  - exists key. destruct v0; simpl in H;
      try (destruct H as [[= <- <-] | []]; eexists; split; [reflexivity | now left]).
    apply in_map_iff in H. destruct H as [[q v'] [[= <- <-] _]].
    eexists. split; [reflexivity | now left].
  - destruct (IH H) as [k [q [-> Hk]]]. exists k, q. auto.
Qed.

Lemma getProperty_head key v rest :
  getProperty (VObject (OCons key v rest)) key = Some v.
Proof. simpl. now rewrite String.eqb_refl. Qed.

Lemma getProperty_tail key v rest k :
  k <> key ->
  getProperty (VObject (OCons key v rest)) k = getProperty (VObject rest) k.
Proof.
  intros H. simpl.
  destruct (String.eqb_spec key k); [congruence | reflexivity].
Qed.

Lemma walk_leafPaths (o : object) :
  plainKeys o ->
  forall p v, In (p, v) (leafPaths o) ->
    Forall (fun k => hasDot k = false) p /\
    fold_left
      (fun acc part => match acc with
                       | Some v => getProperty v part
                       | None => None
                       end) p (Some (VObject o)) = Some v.
Proof.
  induction o using object_mut with
    (P := fun v0 => forall o', v0 = VObject o' ->
            plainKeys o' ->
            forall p v, In (p, v) (leafPaths o') ->
              Forall (fun k => hasDot k = false) p /\
              fold_left
                (fun acc part => match acc with
                                 | Some v => getProperty v part
                                 | None => None
                                 end) p (Some (VObject o')) = Some v);
    try discriminate.
  - intros o' [= <-]. exact IHo.
  - simpl. tauto.
  - intros [Hdot [Hfresh [Hv Hrest]]] p w Hin.
    simpl in Hin. apply in_app_or in Hin. destruct Hin as [Hin | Hin].
    + destruct v;
        try (destruct Hin as [[= <- <-] | []];
             split; [repeat constructor; exact Hdot|];
             cbn [fold_left]; now rewrite getProperty_head).
      apply in_map_iff in Hin. destruct Hin as [[q w'] [[= <- <-] Hq]].
      destruct (IHo o0 eq_refl Hv q w' Hq) as [Hd Hw].
      split; [now constructor|].
      cbn [fold_left fst]. rewrite getProperty_head. exact Hw.
    + destruct (IHo0 Hrest p w Hin) as [Hd Hw]. split; [exact Hd|].
      destruct (leafPaths_head _ _ _ Hin) as [k [q [-> Hk]]].
      cbn [fold_left] in *. rewrite getProperty_tail; [exact Hw|].
      intros ->. contradiction.
Qed.

Lemma flatten_in_leafPaths (obj : object) :
  nestedKeysNonEmpty obj ->
  forall k v, In (k, v) (flattenFrontmatter obj EmptyString) ->
    exists p, In (p, v) (leafPaths obj) /\ k = dottedPath p.
Proof.
  induction obj as [|key v0 rest IH]; simpl; [tauto|].
  intros [Hkey Hrest] k v Hin. rewrite fullKeyOf_top in Hin.
  apply in_app_or in Hin. destruct Hin as [Hin | Hin].
  - destruct v0;
      try (destruct Hin as [[= <- <-] | []]; exists [key];
           split; [apply in_or_app; left; now left | reflexivity]).
    rewrite flattenFrontmatter_nested in Hin by (apply Hkey; reflexivity).
    apply in_map_iff in Hin. destruct Hin as [[q w] [[= <- <-] Hq]].
    exists (key :: q). split.
    + apply in_or_app. left. apply in_map_iff. now exists (q, w).
    + simpl fst. symmetry. apply dottedPath_cons.
      apply (leafPaths_nonempty o (q, w) Hq).
  - destruct (IH Hrest k v Hin) as [p [Hp E]].
    exists p. split; [apply in_or_app; now right | exact E].
Qed.

(** X20: for a header whose records have distinct keys without dots, and
    whose top-level keys holding a nested record are non-empty, looking a
    flattened key up with [getNestedValue] returns the value the flattener
    paired it with. *)
Theorem getNestedValue_of_flattened_key obj key v :
  plainKeys obj ->
  nestedKeysNonEmpty obj ->
  In (key, v) (flattenFrontmatter obj EmptyString) ->
  getNestedValue obj key = Some v.
Proof.
  intros Hplain Hne Hin.
  destruct (flatten_in_leafPaths obj Hne key v Hin) as [p [Hp ->]].
  destruct (walk_leafPaths obj Hplain p v Hp) as [Hd Hw].
  unfold getNestedValue. rewrite splitDots_dottedPath; [exact Hw | | exact Hd].
  apply (leafPaths_nonempty obj (p, v) Hp).
Qed.

(** ** Value statistics *)

Lemma hasEntry_In k l : hasEntry k l = false -> ~ In k (map fst l).
Proof.
  unfold hasEntry. intros H Hin. apply in_map_iff in Hin.
  destruct Hin as [e [<- He]].
  assert (existsb (fun e' => String.eqb (fst e') (fst e)) l = true) as E
    by (apply existsb_exists; exists e; split; [exact He | apply String.eqb_refl]).
  congruence.
Qed.

Lemma keys_incrementEntry k l : map fst (incrementEntry k l) = map fst l.
Proof.
  induction l as [|[k' n] l IH]; simpl; [reflexivity|].
  destruct (String.eqb k' k); simpl; [reflexivity | now rewrite IH].
Qed.

Lemma length_incrementEntry k l :
  List.length (incrementEntry k l) = List.length l.
Proof.
  rewrite <- (length_map fst), keys_incrementEntry. apply length_map.
Qed.

Lemma sumCounts_app l l' : sumCounts (l ++ l') = sumCounts l + sumCounts l'.
Proof.
  unfold sumCounts. induction l as [|e l IH]; simpl; [reflexivity | lia].
Qed.

Lemma sumCounts_incrementEntry k l :
  hasEntry k l = true -> sumCounts (incrementEntry k l) = sumCounts l + 1.
Proof.
  unfold hasEntry. induction l as [|[k' n] l IH]; simpl; [discriminate|].
  destruct (String.eqb k' k); simpl; intros H.
  - unfold sumCounts. simpl. lia.
  - specialize (IH H). unfold sumCounts in *. simpl. lia.
Qed.

Lemma positive_incrementEntry k l :
  Forall (fun e => 0 < snd e) l ->
  Forall (fun e => 0 < snd e) (incrementEntry k l).
Proof.
  induction 1 as [|[k' n] l Hn Hl IH]; simpl; [constructor|].
  destruct (String.eqb k' k); constructor; simpl in *; auto. lia.
Qed.

Lemma entryCount_incrementEntry k l s :
  entryCount s (incrementEntry k l) =
  entryCount s l + (if String.eqb k s && hasEntry k l then 1 else 0).
Proof.
  unfold entryCount, hasEntry. induction l as [|[k' n] l IH]; simpl.
  - rewrite andb_false_r. lia.
  - destruct (String.eqb_spec k' k) as [->|Hk]; simpl.
    + destruct (String.eqb_spec k s) as [->|Hs]; simpl; lia.
    + destruct (String.eqb_spec k' s) as [->|Hs]; simpl.
      * destruct (String.eqb_spec k s); [congruence | simpl; lia].
      * exact IH.
Qed.

Lemma entryCount_absent k l : hasEntry k l = false -> entryCount k l = 0.
Proof.
  unfold entryCount, hasEntry. intros H.
  destruct (find _ l) as [e|] eqn:E; [|reflexivity].
  apply find_some in E. destruct E as [He E].
  assert (existsb (fun e' => String.eqb (fst e') k) l = true) as E'
    by (apply existsb_exists; now exists e).
  congruence.
Qed.

Lemma entryCount_app s l l' :
  entryCount s (l ++ l') =
  if hasEntry s l then entryCount s l else entryCount s l'.
Proof.
  unfold entryCount, hasEntry. induction l as [|e l IH]; simpl; [reflexivity|].
  destruct (String.eqb (fst e) s); simpl; [reflexivity | exact IH].
Qed.

(** Filing one more occurrence of [k], as both halves of [updateValueStats]
    do. *)
Lemma entryCount_filed k l s :
  entryCount s (if hasEntry k l then incrementEntry k l else l ++ [(k, 1)]) =
  entryCount s l + (if String.eqb k s then 1 else 0).
Proof.
  destruct (hasEntry k l) eqn:E.
  - rewrite entryCount_incrementEntry, E, andb_true_r. reflexivity.
  - rewrite entryCount_app.
    destruct (String.eqb_spec k s) as [->|Hs].
    + rewrite E, (entryCount_absent s l E). unfold entryCount. simpl.
      now rewrite String.eqb_refl.
    + destruct (hasEntry s l) eqn:E'; [lia|].
      rewrite (entryCount_absent s l E'). unfold entryCount. simpl.
      destruct (String.eqb_spec k s); [contradiction | reflexivity].
Qed.

Lemma sumCounts_filed k l :
  sumCounts (if hasEntry k l then incrementEntry k l else l ++ [(k, 1)]) =
  sumCounts l + 1.
Proof.
  destruct (hasEntry k l) eqn:E.
  - now apply sumCounts_incrementEntry.
  - rewrite sumCounts_app. reflexivity.
Qed.

Lemma keys_filed k l :
  NoDup (map fst l) ->
  NoDup (map fst (if hasEntry k l then incrementEntry k l else l ++ [(k, 1)])).
Proof.
  intros H. destruct (hasEntry k l) eqn:E.
  - now rewrite keys_incrementEntry.
  - rewrite map_app. simpl. apply NoDup_snoc; [exact H | now apply hasEntry_In].
Qed.

Lemma rendered_typeTag v :
  negb (String.eqb (typeTag v) "object") && negb (String.eqb (typeTag v) "array")
  = isRendered v.
Proof. now destruct v. Qed.

(** What one call of [updateValueStats] does to the two tables. *)
Lemma updateValueStats_tables st v :
  typeDistribution (updateValueStats st v) =
    (if hasEntry (typeTag v) (typeDistribution st)
     then incrementEntry (typeTag v) (typeDistribution st)
     else typeDistribution st ++ [(typeTag v, 1)]) /\
  topValues (updateValueStats st v) =
    (if isRendered v
     then if hasEntry (jsString v) (topValues st)
          then incrementEntry (jsString v) (topValues st)
          else topValues st ++ [(jsString v, 1)]
     else topValues st) /\
  unique (updateValueStats st v) =
    (if isRendered v && negb (hasEntry (jsString v) (topValues st))
     then Z.of_nat (List.length (topValues st)) + 1
     else unique st).
Proof.
  unfold updateValueStats. rewrite rendered_typeTag.
  destruct (isRendered v); simpl; [|auto].
  destruct (hasEntry (jsString v) (topValues st)); simpl; [auto|].
  repeat split. rewrite length_app. simpl. lia.
Qed.

Lemma statsOf_snoc vs v :
  statsOf (vs ++ [v]) = updateValueStats (statsOf vs) v.
Proof. unfold statsOf. now rewrite fold_left_app. Qed.

(** X16: folding values into empty statistics with [updateValueStats]
    files, under each type tag, the number of values of that type, and under
    each rendered string the number of values other than arrays and records
    that render to it; [unique] is the number of distinct rendered strings and
    no tag or string is filed twice. *)
Theorem statsOf_counts_occurrences vs :
  (forall t, entryCount t (typeDistribution (statsOf vs)) =
             Z.of_nat (List.length
                         (filter (fun v => String.eqb (typeTag v) t) vs))) /\
  (forall s, entryCount s (topValues (statsOf vs)) =
             Z.of_nat (List.length
                         (filter (fun v => isRendered v
                                           && String.eqb (jsString v) s) vs))) /\
  unique (statsOf vs) = Z.of_nat (List.length (topValues (statsOf vs))) /\
  NoDup (map fst (topValues (statsOf vs))) /\
  NoDup (map fst (typeDistribution (statsOf vs))).
Proof.
  induction vs as [|v vs IH] using rev_ind.
  - repeat split; try constructor.
  - destruct IH as [Ht [Hs [Hu [Hn Hnt]]]].
    rewrite statsOf_snoc.
    destruct (updateValueStats_tables (statsOf vs) v) as [Et [Es Eu]].
    rewrite Et, Es, Eu. repeat split.
    + intros t. rewrite entryCount_filed, Ht, filter_app, length_app. simpl.
      destruct (String.eqb (typeTag v) t); simpl; lia.
    + intros s. rewrite filter_app, length_app. simpl.
      destruct (isRendered v); simpl.
      * rewrite entryCount_filed, Hs.
        destruct (String.eqb (jsString v) s); simpl; lia.
      * rewrite Hs. lia.
    + destruct (isRendered v); simpl; [|exact Hu].
      destruct (hasEntry (jsString v) (topValues (statsOf vs))); simpl.
      * now rewrite length_incrementEntry.
      * rewrite length_app. simpl. lia.
    + destruct (isRendered v); [|exact Hn]. now apply keys_filed.
    + now apply keys_filed.
Qed.

(** ** Value statistics of a rebuild *)

Section RebuildKeeps.
Variable P : FrontmatterField -> Prop.
Variable settings : PluginSettings.

Hypothesis P_new : forall key,
  P {| name := key; count := 0; files := [];
       valueStats := if analyzeValues settings
                     then Some emptyStats else None |}.
Hypothesis P_countFile : forall file v r, P r -> P (countFile settings file v r).

Lemma scanEntry_keeps file m e m' :
  mapHolds P m -> scanEntry settings file m e = Some m' -> mapHolds P m'.
Proof.
  intros Hm. unfold scanEntry.
  destruct (ignoreSetHas settings (fst e)); [intros [= <-]; exact Hm|].
  destruct (lookupField (fst e) m); intros [= <-];
    (apply updateEntry_holds; [now auto|]); [exact Hm|].
  apply Forall_app. split; [exact Hm|]. constructor; [|constructor].
  simpl. apply P_new.
Qed.

Lemma scanEntries_keeps file es : forall m m',
  mapHolds P m -> scanEntries settings file es m = Some m' -> mapHolds P m'.
Proof.
  induction es as [|e es IH]; simpl; intros m m' Hm; [intros [= <-]; exact Hm|].
  destruct (scanEntry settings file m e) as [m1|] eqn:E; [|discriminate].
  apply IH. now apply (scanEntry_keeps file m e).
Qed.

Lemma scanFile_keeps app callback total sc file :
  mapHolds P (fieldsMap sc) ->
  mapHolds P (fieldsMap (scanFile app settings callback total sc file)).
Proof.
  intros H. unfold scanFile.
  destruct (threw sc); [exact H|].
  destruct (frontmatterOf app file); simpl; [|exact H].
  destruct (scanEntries settings file _ (fieldsMap sc)) as [m|] eqn:E;
    simpl; [|exact H].
  revert E. now apply scanEntries_keeps.
Qed.

Lemma scanAll_keeps app callback :
  mapHolds P (fieldsMap (scanAll app settings callback)).
Proof.
  unfold scanAll.
  generalize (Z.of_nat (List.length (getMarkdownFiles app))) as total.
  intros total.
  assert (mapHolds P (fieldsMap {| fieldsMap := []; processedFiles := 0;
                                   visited := []; reported := [];
                                   threw := false |})) as H0
    by constructor.
  revert H0. generalize {| fieldsMap := []; processedFiles := 0;
                           visited := []; reported := [];
                           threw := false |} as sc.
  induction (getMarkdownFiles app) as [|f fs IH]; intros sc H; simpl; [exact H|].
  apply IH. now apply scanFile_keeps.
Qed.
End RebuildKeeps.

Lemma sumCounts_Permutation l l' :
  Permutation l l' -> sumCounts l = sumCounts l'.
Proof.
  unfold sumCounts. induction 1; simpl; lia.
Qed.

Lemma sumCounts_firstn n l :
  Forall (fun e => 0 < snd e) l -> sumCounts (firstn n l) <= sumCounts l.
Proof.
  unfold sumCounts. revert n. induction l as [|e l IH]; intros n H.
  - destruct n; simpl; lia.
  - inversion H as [|? ? He Hl]; subst.
    destruct n; simpl.
    + assert (0 <= fold_right (fun e acc => snd e + acc) 0 l) as H0.
      { clear -Hl. induction Hl; simpl; lia. }
      lia.
    + specialize (IH n Hl). lia.
Qed.

Lemma Forall_take {A} (P : A -> Prop) n l :
  Forall P l -> Forall P (firstn n l).
Proof.
  intros H. apply Forall_forall. intros x Hx.
  rewrite Forall_forall in H. apply H.
  rewrite <- (firstn_skipn n l). apply in_or_app. now left.
Qed.

Lemma Sorted_firstn {A} (R : A -> A -> Prop) n l :
  Sorted R l -> Sorted R (firstn n l).
Proof.
  revert l. induction n as [|n IH]; intros l H; [constructor|].
  destruct l as [|x l]; [constructor|].
  inversion H as [|? ? Hs Hh]; subst. simpl. constructor; [now apply IH|].
  destruct l as [|y l]; [destruct n; constructor|].
  destruct n; simpl; constructor. now inversion Hh.
Qed.

Lemma statsSound_countFile settings file v r :
  analyzeValues settings = true ->
  statsSound r -> statsSound (countFile settings file v r).
Proof.
  intros Ha [st [Es [Ht [Hs [Hu Hp]]]]]. unfold countFile.
  destruct (hasPath (path file) (files r)); [now exists st|].
  rewrite Ha, Es. simpl.
  exists (updateValueStats st v). split; [reflexivity|]. simpl.
  destruct (updateValueStats_tables st v) as [Et [Etop Eu]].
  rewrite Et, Etop, Eu. repeat split.
  - rewrite sumCounts_filed. lia.
  - destruct (isRendered v); [rewrite sumCounts_filed|]; lia.
  - destruct (isRendered v); simpl; [|exact Hu].
    destruct (hasEntry (jsString v) (topValues st)); simpl.
    + now rewrite length_incrementEntry.
    + rewrite length_app. simpl. lia.
  - destruct (isRendered v); [|exact Hp].
    destruct (hasEntry (jsString v) (topValues st)).
    + now apply positive_incrementEntry.
    + apply Forall_app. split; [exact Hp|]. repeat constructor.
Qed.

Lemma statsSound_trimTopValues r :
  statsSound r -> statsSound (trimTopValues r) /\ topTrimmed (trimTopValues r).
Proof.
  intros [st [Es [Ht [Hs [Hu Hp]]]]]. unfold trimTopValues. rewrite Es.
  pose proof (jsSort_perm byEntryCountDesc (topValues st)) as Hperm.
  assert (Forall (fun e => 0 < snd e) (jsSort byEntryCountDesc (topValues st)))
    as Hp' by (eapply Permutation_Forall; [symmetry; exact Hperm | exact Hp]).
  pose proof (firstn_le_length 5 (jsSort byEntryCountDesc (topValues st)))
    as Hfive.
  pose proof (Sorted_firstn _ 5 _
                (jsSort_Sorted snd byEntryCountDesc (fun a b => eq_refl)
                   (topValues st))) as Hsorted.
  remember (firstn 5 (jsSort byEntryCountDesc (topValues st))) as top eqn:Etop.
  split.
  - eexists. split; [reflexivity|].
    cbn [unique topValues typeDistribution count]. subst top. repeat split.
    + exact Ht.
    + pose proof (sumCounts_firstn 5 _ Hp') as H1.
      rewrite (sumCounts_Permutation _ _ Hperm) in H1. lia.
    + rewrite length_firstn, (Permutation_length Hperm). lia.
    + now apply Forall_take.
  - intros st' E. injection E as <-. cbn [topValues]. split; assumption.
Qed.

(** X17: with value analysis on, every record a rebuild returns carries
    statistics whose type counts add up to the record's count, whose top
    values are at most five, sorted by count descending, each with a positive
    count adding up to at most the record's count, and whose [unique] is at
    least the number of top values listed. *)
Theorem rebuild_statistics_sound app settings callback now now' s :
  analyzeValues settings = true ->
  cache s = [] \/ cacheTTL settings * 1000 <= now - lastUpdate s ->
  Forall (fun r => statsSound r /\ topTrimmed r)
         (returned (getFields app settings callback now now' s)).
Proof.
  intros Ha Hmiss. unfold getFields. rewrite getFields_miss by exact Hmiss.
  destruct (threw (scanAll app settings callback)); simpl; [constructor|].
  unfold rebuiltFields. rewrite Ha. apply jsSort_Forall.
  apply objectValues_Forall. apply Forall_map. simpl.
  eapply Forall_impl;
    [|apply (scanAll_keeps statsSound settings)].
  - intros e He. now apply statsSound_trimTopValues.
  - intros key. rewrite Ha. exists emptyStats. repeat split; simpl; try lia.
    constructor.
  - intros file v r. now apply statsSound_countFile.
Qed.

(** X18: with value analysis off, no record a rebuild returns carries value
    statistics. *)
Theorem rebuild_without_analysis_has_no_statistics
    app settings callback now now' s :
  analyzeValues settings = false ->
  cache s = [] \/ cacheTTL settings * 1000 <= now - lastUpdate s ->
  Forall (fun r => valueStats r = None)
         (returned (getFields app settings callback now now' s)).
Proof.
  intros Ha Hmiss. unfold getFields. rewrite getFields_miss by exact Hmiss.
  destruct (threw (scanAll app settings callback)); simpl; [constructor|].
  unfold rebuiltFields. rewrite Ha. apply jsSort_Forall.
  apply objectValues_Forall.
  apply (scanAll_keeps (fun r => valueStats r = None) settings).
  - intros key. now rewrite Ha.
  - intros file v r H. unfold countFile.
    destruct (hasPath _ _); [exact H|]. simpl. now rewrite Ha.
Qed.

(** ** What a rebuild does not depend on *)

Lemma ignoreSetHas_ext settings settings' key :
  ignoreFields settings = ignoreFields settings' ->
  ignoreSetHas settings key = ignoreSetHas settings' key.
Proof. unfold ignoreSetHas. now intros ->. Qed.

Lemma scanEntry_ext settings settings' file m e :
  ignoreFields settings = ignoreFields settings' ->
  analyzeValues settings = analyzeValues settings' ->
  scanEntry settings file m e = scanEntry settings' file m e.
Proof.
  intros Hi Ha. unfold scanEntry, countFile.
  now rewrite (ignoreSetHas_ext settings settings' _ Hi), Ha.
Qed.

Lemma scanEntries_ext settings settings' file es :
  ignoreFields settings = ignoreFields settings' ->
  analyzeValues settings = analyzeValues settings' ->
  forall m, scanEntries settings file es m = scanEntries settings' file es m.
Proof.
  intros Hi Ha. induction es as [|e es IH]; intros m; simpl; [reflexivity|].
  rewrite (scanEntry_ext settings settings' file m e Hi Ha).
  destruct (scanEntry settings' file m e); [apply IH | reflexivity].
Qed.

(** The map, the files looked up and the throw of a scan depend neither on
    the callback nor on the progress flag. *)
Lemma fieldsMap_scanFiles_ext app settings settings' cb cb' total total' fs :
  ignoreFields settings = ignoreFields settings' ->
  analyzeValues settings = analyzeValues settings' ->
  forall sc sc',
    fieldsMap sc = fieldsMap sc' /\ visited sc = visited sc' /\
    threw sc = threw sc' ->
    fieldsMap (fold_left (scanFile app settings cb total) fs sc) =
    fieldsMap (fold_left (scanFile app settings' cb' total') fs sc') /\
    visited (fold_left (scanFile app settings cb total) fs sc) =
    visited (fold_left (scanFile app settings' cb' total') fs sc') /\
    threw (fold_left (scanFile app settings cb total) fs sc) =
    threw (fold_left (scanFile app settings' cb' total') fs sc').
Proof.
  intros Hi Ha. induction fs as [|f fs IH]; intros sc sc' H; simpl; [exact H|].
  apply IH. destruct H as [Hm [Hv Ht]]. unfold scanFile.
  rewrite <- Ht. destruct (threw sc) eqn:Ets;
    [repeat split; congruence|].
  rewrite <- Hm, <- Hv.
  destruct (frontmatterOf app f) as [fm|]; [|simpl; auto].
  rewrite (scanEntries_ext settings settings' f
             (flattenFrontmatter fm EmptyString) Hi Ha).
  destruct (scanEntries settings' f _ (fieldsMap sc)); simpl; auto.
Qed.

(** X8: whether a callback is supplied, and the progress and page-size
    settings, change neither what [getFields] returns, nor the state it
    leaves, nor the files it looks up. *)
Theorem getFields_result_ignores_progress
    app settings settings' cb cb' now now' s :
  ignoreFields settings = ignoreFields settings' ->
  analyzeValues settings = analyzeValues settings' ->
  cacheTTL settings = cacheTTL settings' ->
  returned (getFields app settings cb now now' s) =
    returned (getFields app settings' cb' now now' s) /\
  after (getFields app settings cb now now' s) =
    after (getFields app settings' cb' now now' s) /\
  scanned (getFields app settings cb now now' s) =
    scanned (getFields app settings' cb' now now' s).
Proof.
  intros Hi Ha Ht. unfold getFields. rewrite <- Ht.
  destruct (_ && _); [auto|].
  assert (fieldsMap (scanAll app settings cb) =
          fieldsMap (scanAll app settings' cb') /\
          visited (scanAll app settings cb) =
          visited (scanAll app settings' cb') /\
          threw (scanAll app settings cb) =
          threw (scanAll app settings' cb')) as [Em [Ev Et]]
    by (unfold scanAll; now apply fieldsMap_scanFiles_ext).
  rewrite <- Et, <- Ev, <- Em.
  destruct (threw (scanAll app settings cb)); simpl; [auto|].
  unfold rebuiltFields. rewrite <- Ha. auto.
Qed.

(** *** The order of [Object.values] *)

Section SortMap.
Context {A B : Type} (g : A -> B) (cmp : A -> A -> Z) (cmp' : B -> B -> Z).
Hypothesis cmp_g : forall a b, cmp a b = cmp' (g a) (g b).

Lemma sortInsert_map x l :
  map g (sortInsert cmp x l) = sortInsert cmp' (g x) (map g l).
Proof.
  induction l as [|y l IH]; simpl; [reflexivity|].
  rewrite cmp_g. destruct (0 <? cmp' (g x) (g y)); simpl; [now rewrite IH|].
  reflexivity.
Qed.

Lemma jsSort_map l : map g (jsSort cmp l) = jsSort cmp' (map g l).
Proof.
  induction l as [|x l IH]; simpl; [reflexivity|].
  now rewrite sortInsert_map, IH.
Qed.
End SortMap.

Lemma integerEntries_shape m :
  map (fun x => (fst x, shape (snd x))) (integerEntries m) =
  flat_map (fun e => match integerKey (fst e) with
                     | Some i => [(i, snd e)]
                     | None => []
                     end) (map entryShape m).
Proof.
  unfold integerEntries. induction m as [|e m IH]; simpl; [reflexivity|].
  rewrite map_app, IH. now destruct (integerKey (fst e)).
Qed.

Lemma stringEntries_shape m :
  map shape (map snd (filter isStringKey m)) =
  map snd (filter (fun e => match integerKey (fst e) with
                            | Some _ => false
                            | None => true
                            end) (map entryShape m)).
Proof.
  induction m as [|e m IH]; simpl; [reflexivity|].
  unfold isStringKey at 1. destruct (integerKey (fst e)); simpl; [exact IH|].
  now rewrite IH.
Qed.

(** What [Object.values] lists, up to value statistics, is determined by the
    keys and the shapes of the own entries. *)
Lemma objectValues_shape m m' :
  map entryShape m = map entryShape m' ->
  sameShape (objectValues m) (objectValues m').
Proof.
  intros H. unfold sameShape, objectValues. rewrite !map_app. f_equal.
  - assert (forall l : list (N * FrontmatterField),
              map shape (map snd (jsSort byIndexAsc l)) =
              map snd (jsSort (fun a b : N * (string * Z * list TFile) =>
                                 Z.of_N (fst a) - Z.of_N (fst b))
                         (map (fun x => (fst x, shape (snd x))) l))) as E.
    { intros l. rewrite <- (jsSort_map (fun x => (fst x, shape (snd x)))
                              byIndexAsc _ (fun a b => eq_refl)).
      now rewrite !map_map. }
    now rewrite !E, !integerEntries_shape, H.
  - now rewrite !stringEntries_shape, H.
Qed.

Lemma entryShape_trimTopValues m :
  map entryShape (map (fun e => (fst e, trimTopValues (snd e))) m) =
  map entryShape m.
Proof.
  rewrite map_map. apply map_ext. intros e. unfold entryShape. simpl.
  now rewrite shape_trimTopValues.
Qed.

Lemma entryShape_keyedByName m m' :
  keyedByName m -> keyedByName m' ->
  sameShape (map snd m) (map snd m') ->
  map entryShape m = map entryShape m'.
Proof.
  intros Hm. revert m'. unfold sameShape.
  induction Hm as [|e m He Hm IH]; intros [|e' m'] Hm' H; cbn [map] in *;
    try discriminate; [reflexivity|].
  inversion Hm' as [|? ? He' Hm'']; subst.
  assert (shape (snd e) = shape (snd e') /\
          map shape (map snd m) = map shape (map snd m')) as [Hs Hl]
    by (split; congruence).
  f_equal; [|now apply IH].
  unfold entryShape. rewrite <- He, <- He', Hs.
  unfold shape in Hs. congruence.
Qed.

Lemma objectValues_stringKeys m :
  Forall (fun e => integerKey (fst e) = None) m ->
  objectValues m = map snd m.
Proof.
  intros H. unfold objectValues, integerEntries.
  induction H as [|e m He Hm IH]; [reflexivity|].
  cbn [flat_map filter map]. unfold isStringKey at 1. rewrite He.
  cbn [app map]. cbn [flat_map filter map] in IH.
  destruct (flat_map _ m) as [|x l] eqn:E.
  - cbn [jsSort map app] in *. now f_equal.
  - exfalso. clear -Hm E. induction Hm as [|e m He Hm IH]; [discriminate|].
    cbn [flat_map] in E. rewrite He in E. now apply IH.
Qed.

Lemma sameShape_sortInsert x x' : forall l l',
  shape x = shape x' -> sameShape l l' ->
  sameShape (sortInsert byCountDesc x l) (sortInsert byCountDesc x' l').
Proof.
  unfold sameShape. induction l as [|y l IH]; intros [|y' l'] Hx H;
    cbn [map sortInsert] in *; try discriminate.
  - now rewrite Hx.
  - assert (shape y = shape y' /\ map shape l = map shape l') as [Hy Hl]
      by (split; congruence).
    assert (byCountDesc x y = byCountDesc x' y') as ->
      by (unfold byCountDesc, shape in *; congruence).
    destruct (0 <? byCountDesc x' y'); cbn [map].
    + f_equal; [exact Hy | now apply IH].
    + now rewrite Hx, Hy, Hl.
Qed.

Lemma sameShape_jsSort : forall l l',
  sameShape l l' ->
  sameShape (jsSort byCountDesc l) (jsSort byCountDesc l').
Proof.
  induction l as [|x l IH]; intros [|x' l'] H; unfold sameShape in H;
    cbn [map] in H; try discriminate; [reflexivity|].
  assert (shape x = shape x' /\ map shape l = map shape l') as [Hx Hl]
    by (split; congruence).
  cbn [jsSort]. apply sameShape_sortInsert; [exact Hx | now apply IH].
Qed.

Lemma sameShape_rebuiltFields settings settings' m m' :
  map entryShape m = map entryShape m' ->
  sameShape (rebuiltFields settings m) (rebuiltFields settings' m').
Proof.
  intros H. unfold rebuiltFields. cbv zeta. apply sameShape_jsSort.
  apply objectValues_shape.
  destruct (analyzeValues settings), (analyzeValues settings');
    now rewrite ?entryShape_trimTopValues.
Qed.

Lemma keysOf_ext app settings settings' f :
  ignoreFields settings = ignoreFields settings' ->
  keysOf app settings f = keysOf app settings' f.
Proof.
  intros Hi. unfold keysOf. destruct (frontmatterOf app f); [|reflexivity].
  apply filter_ext. intros k. now rewrite (ignoreSetHas_ext settings settings').
Qed.

Lemma ordinaryNames_ext app settings settings' :
  ignoreFields settings = ignoreFields settings' ->
  ordinaryNames app settings = ordinaryNames app settings'.
Proof.
  intros Hi. unfold ordinaryNames, ordinaryFile.
  induction (getMarkdownFiles app) as [|f fs IH]; simpl; [reflexivity|].
  now rewrite IH, (keysOf_ext app settings settings' f Hi).
Qed.

Lemma addEntries_ext settings settings' file es c :
  ignoreFields settings = ignoreFields settings' ->
  addEntries settings file es c = addEntries settings' file es c.
Proof.
  intros Hi. unfold addEntries. revert c.
  induction es as [|e es IH]; intros c; simpl; [reflexivity|].
  now rewrite (ignoreSetHas_ext settings settings' _ Hi), IH.
Qed.

Lemma addAll_ext app settings settings' now fs : forall s,
  ignoreFields settings = ignoreFields settings' ->
  cache (addAll app settings now fs s) = cache (addAll app settings' now fs s).
Proof.
  unfold addAll. induction fs as [|f fs IH]; intros s Hi; simpl; [reflexivity|].
  assert (addFileToCache app settings now f s =
          addFileToCache app settings' now f s) as ->; [|now apply IH].
  unfold addFileToCache. destruct (frontmatterOf app f); [|reflexivity].
  now rewrite (addEntries_ext settings settings' f _ _ Hi).
Qed.

(** When no document declares a field under an array index, no own entry
    of the scanned map is filed under one. *)
Lemma scanAll_stringKeys app settings callback :
  ordinaryNames app settings = true ->
  stringNames app settings = true ->
  Forall (fun e => integerKey (fst e) = None)
         (fieldsMap (scanAll app settings callback)).
Proof.
  intros Hord Hstr.
  destruct (scanAll_adds_every_document app settings callback 0 Hord)
    as [Hk Hadd].
  assert (tidy (cache (addAll app settings 0 (getMarkdownFiles app)
                         initialState))) as Ht
    by (apply tidy_addAll; repeat split; constructor).
  apply Forall_forall. intros e He.
  unfold keyedByName in Hk. rewrite Forall_forall in Hk.
  rewrite <- (Hk e He).
  destruct (sameShape_In _ _ (snd e) Hadd (in_map snd _ _ He)) as [r [Hr Es]].
  assert (name (snd e) = name r) as -> by (unfold shape in Es; congruence).
  destruct Ht as [_ [_ [_ Hne]]]. rewrite Forall_forall in Hne.
  specialize (Hne r Hr).
  destruct (files r) as [|g l] eqn:Ef; [congruence|].
  assert (owner (cache (addAll app settings 0 (getMarkdownFiles app)
                          initialState)) (name r) (path g)) as Ho
    by (exists r; rewrite Ef; simpl; auto).
  apply owner_addAll in Ho.
  destruct Ho as [[r0 [[] _]] | [f [Hf [_ Hkey]]]].
  unfold stringNames in Hstr. rewrite forallb_forall in Hstr.
  specialize (Hstr f Hf). rewrite forallb_forall in Hstr.
  specialize (Hstr (name r) Hkey).
  now destruct (integerKey (name r)).
Qed.

(** X5: on a cache miss over a collection in which no document declares a
    field under a name inherited from [Object.prototype] or under an array
    index, [getFields] returns, up to value statistics, what adding every
    document in turn to an empty cache through [addFileToCache] and sorting
    by count gives, in that order. *)
Theorem rebuild_is_sorted_addition app settings callback now now' s t :
  ordinaryNames app settings = true ->
  stringNames app settings = true ->
  cache s = [] \/ cacheTTL settings * 1000 <= now - lastUpdate s ->
  sameShape (returned (getFields app settings callback now now' s))
            (jsSort byCountDesc
               (cache (addAll app settings t (getMarkdownFiles app)
                         initialState))).
Proof.
  intros Hord Hstr Hmiss. rewrite getFields_rebuilds by assumption. simpl.
  unfold rebuiltFields. cbv zeta. apply sameShape_jsSort.
  destruct (scanAll_adds_every_document app settings callback t Hord)
    as [_ H].
  pose proof (scanAll_stringKeys app settings callback Hord Hstr) as Hkeys.
  unfold sameShape in *. rewrite <- H.
  rewrite objectValues_stringKeys.
  - destruct (analyzeValues settings); [|reflexivity].
    rewrite !map_map. apply map_ext. intros e. simpl. apply shape_trimTopValues.
  - destruct (analyzeValues settings); [|exact Hkeys].
    apply Forall_map. exact Hkeys.
Qed.

(** X26: in the collection where A.md declares [b] and B.md declares [7],
    a rebuild returns the record [7] before the record [b], the order in
    which [Object.values] lists the two keys, although adding the documents
    in turn through [addFileToCache] and sorting by count gives [b] first;
    the collection declares no inherited name, and a field under an array
    index.  Where A.md declares [b], [10] and [07] and B.md declares [9],
    the rebuild returns [9], [10], [b], [07]: array indices by ascending
    value, then the other names in insertion order. *)
Theorem rebuild_lists_array_index_names_first :
  map (fun r => (name r, count r, map path (files r)))
      (returned (getFields sevenVault DEFAULT_SETTINGS false 1000 1000
                   initialState)) =
    [("7", 1, ["B.md"]); ("b", 1, ["A.md"])] /\
  map name (returned (getFields indexNamesVault DEFAULT_SETTINGS false 1000 1000
                        initialState)) =
    ["9"; "10"; "b"; "07"] /\
  map (fun r => (name r, count r, map path (files r)))
      (jsSort byCountDesc
         (cache (addAll sevenVault DEFAULT_SETTINGS 1000
                   (getMarkdownFiles sevenVault) initialState))) =
    [("b", 1, ["A.md"]); ("7", 1, ["B.md"])] /\
  ordinaryNames sevenVault DEFAULT_SETTINGS = true /\
  stringNames sevenVault DEFAULT_SETTINGS = false.
Proof. repeat split. Qed.

(** X9: switching value analysis on or off changes only the value statistics
    of what [getFields] returns: names, counts, owning lists and order are
    the same. *)
Theorem value_analysis_changes_statistics_only
    app settings settings' cb cb' now now' s :
  ignoreFields settings = ignoreFields settings' ->
  cacheTTL settings = cacheTTL settings' ->
  sameShape (returned (getFields app settings cb now now' s))
            (returned (getFields app settings' cb' now now' s)).
Proof.
  intros Hi Ht. unfold getFields. rewrite <- Ht.
  destruct (_ && _); [reflexivity|].
  rewrite !scanAll_threw, <- (ordinaryNames_ext app settings settings' Hi).
  destruct (ordinaryNames app settings) eqn:Ho; simpl; [|reflexivity].
  assert (ordinaryNames app settings' = true) as Ho'
    by now rewrite <- (ordinaryNames_ext app settings settings' Hi).
  apply sameShape_rebuiltFields.
  destruct (scanAll_adds_every_document app settings cb 0 Ho) as [K1 H1].
  destruct (scanAll_adds_every_document app settings' cb' 0 Ho') as [K2 H2].
  apply entryShape_keyedByName; [exact K1 | exact K2 |].
  unfold sameShape in *. rewrite H1, H2. f_equal. now apply addAll_ext.
Qed.

(** ** What each notification does to the owners *)

Lemma created_owner_aux app settings now f s key p :
  extension f = "md" ->
  owner (cache (updateCacheOnCreate app settings now (AFile f) s)) key p <->
  owner (cache s) key p \/ (p = path f /\ In key (keysOf app settings f)).
Proof.
  intros Hmd. simpl. rewrite Hmd. simpl. apply owner_addFileToCache.
Qed.

(** X10: after the created notification for a markdown document, a path owns
    a field exactly when it did before or it is the document's path and the
    field is a non-ignored flattened key of its header. *)
Theorem created_document_joins_its_fields app settings now f s key p :
  extension f = "md" ->
  owner (cache (updateCacheOnCreate app settings now (AFile f) s)) key p <->
  owner (cache s) key p \/ (p = path f /\ In key (keysOf app settings f)).
Proof.
  intros Hmd. simpl. rewrite Hmd. simpl. apply owner_addFileToCache.
Qed.

(** X11: after the changed notification for a markdown document, the
    document owns exactly the non-ignored flattened keys of its current
    header, and every other path owns what it owned before. *)
Theorem changed_document_owns_its_current_fields app settings now f s key p :
  extension f = "md" ->
  owner (cache (updateCacheForFile app settings now f s)) key p <->
  (owner (cache s) key p /\ p <> path f) \/
  (p = path f /\ In key (keysOf app settings f)).
Proof.
  intros Hmd. unfold updateCacheForFile. rewrite Hmd. simpl.
  rewrite owner_addFileToCache. simpl. now rewrite owner_removeFile.
Qed.

(** X12: after the deleted notification for a markdown document, its path
    owns no field, every other path owns what it owned before, no record is
    left with a count of zero, and the timestamp is untouched. *)
Theorem deleted_document_owns_nothing f s :
  extension f = "md" ->
  (forall key p,
     owner (cache (updateCacheOnDelete (AFile f) s)) key p <->
     owner (cache s) key p /\ p <> path f) /\
  Forall (fun r => 0 < count r) (cache (updateCacheOnDelete (AFile f) s)) /\
  lastUpdate (updateCacheOnDelete (AFile f) s) = lastUpdate s.
Proof.
  intros Hmd. simpl. rewrite Hmd. simpl.
  split; [intros key p; apply owner_removeFile|].
  split; [|reflexivity].
  unfold removeFile. apply Forall_forall. intros r Hr.
  apply filter_In in Hr. now apply Z.ltb_lt.
Qed.

(** X13: after the renamed notification for a markdown document, the new
    path owns what the old path owned, the old path owns nothing unless it is
    the new path, other owners are untouched, and the names, the counts and
    the timestamp are unchanged. *)
Theorem renamed_document_keeps_its_fields f oldPath s :
  extension f = "md" ->
  (forall key p,
     owner (cache (updateCacheOnRename (AFile f) oldPath s)) key p <->
     (owner (cache s) key p /\ p <> oldPath) \/
     (p = path f /\ owner (cache s) key oldPath)) /\
  map name (cache (updateCacheOnRename (AFile f) oldPath s)) =
    map name (cache s) /\
  map count (cache (updateCacheOnRename (AFile f) oldPath s)) =
    map count (cache s) /\
  lastUpdate (updateCacheOnRename (AFile f) oldPath s) = lastUpdate s.
Proof.
  intros Hmd. simpl. rewrite Hmd. simpl.
  split; [intros key p; apply owner_rename|].
  rewrite !map_map. auto.
Qed.

(** ** A notification before the first read *)

Lemma paths_of_single_owner (l : list TFile) p :
  l <> [] -> NoDup (map path l) -> (forall q, In q (map path l) -> q = p) ->
  map path l = [p].
Proof.
  intros Hne Hnd Hall. destruct l as [|f l]; [congruence|].
  simpl in *. rewrite (Hall (path f)) by now left.
  destruct l as [|g l]; [reflexivity|]. exfalso.
  inversion Hnd as [|? ? Hn _]; subst. apply Hn. simpl. left.
  rewrite (Hall (path g)) by (right; now left).
  symmetry. apply Hall. now left.
Qed.

(** X14: a created notification that reaches an empty cache, for a markdown
    document with at least one non-ignored key, stamps the cache: a read
    within the TTL then scans nothing and returns records that list the
    created document alone. *)
Theorem create_before_first_read_is_served
    app settings now f s app' callback t t' key :
  cache s = [] ->
  extension f = "md" ->
  In key (keysOf app settings f) ->
  t - now < cacheTTL settings * 1000 ->
  let s' := updateCacheOnCreate app settings now (AFile f) s in
  scanned (getFields app' settings callback t t' s') = [] /\
  returned (getFields app' settings callback t t' s') = cache s' /\
  cache s' <> [] /\
  Forall (fun r => map path (files r) = [path f]) (cache s').
Proof.
  intros Hempty Hmd Hkey Httl s'.
  assert (tidy (cache s')) as Htidy.
  { unfold s'. simpl. rewrite Hmd. simpl. apply tidy_addFileToCache.
    rewrite Hempty. repeat split; constructor. }
  assert (forall k p, owner (cache s') k p <->
                      p = path f /\ In k (keysOf app settings f)) as Hown.
  { intros k p. unfold s'.
    rewrite (created_owner_aux app settings now f s k p Hmd), Hempty.
    split; [intros [[r [[] _]] | H]; exact H | auto]. }
  assert (cache s' <> []) as Hne.
  { assert (owner (cache s') key (path f)) as [r [Hr _]] by (apply Hown; auto).
    intros E. rewrite E in Hr. contradiction. }
  assert (lastUpdate s' = now) as Hlu.
  { unfold s'. simpl. rewrite Hmd. simpl. unfold addFileToCache.
    unfold keysOf in Hkey. destruct (frontmatterOf app f); [reflexivity|].
    contradiction. }
  rewrite getFields_cached by (rewrite ?Hlu; assumption).
  simpl. repeat split; try assumption.
  destruct Htidy as [_ [_ [Hd He]]]. rewrite Forall_forall in *.
  intros r Hr. apply paths_of_single_owner; [now apply He | now apply Hd |].
  intros q Hq. apply (Hown (name r) q). now exists r.
Qed.

(** ** Adding a field to the ignore list from the table *)

(** X24: after "Add to ignore list" on a row, the table keeps every other
    row and no row of that name, and whatever [getFields] returns next, under
    the new settings, holds no record of that name. *)
Theorem addToIgnoreList_hides_field field settings s shown :
  let '(settings', s', shown') := addToIgnoreList field settings s shown in
  Forall (fun r => name r <> name field) shown' /\
  (forall r, In r shown -> name r <> name field -> In r shown') /\
  forall app callback now now' r,
    In r (returned (getFields app settings' callback now now' s')) ->
    name r <> name field.
Proof.
  unfold addToIgnoreList. repeat split.
  - apply Forall_forall. intros r Hr. apply filter_In in Hr.
    destruct Hr as [_ E]. now apply negb_true_iff, String.eqb_neq in E.
  - intros r Hr Hn. apply filter_In. split; [exact Hr|].
    now apply negb_true_iff, String.eqb_neq.
  - intros app callback now now' r Hr E.
    match type of Hr with
    | In r (returned ?run) => destruct (rejected run) eqn:Hrej
    end.
    { apply getFields_rejected in Hrej. destruct Hrej as [E0 _].
      rewrite E0 in Hr. contradiction. }
    rewrite getFields_returned_cache in Hr by exact Hrej.
    pose proof (handle_notIgnored
                  {| pageSize := pageSize settings;
                     ignoreFields := ignoreFields settings ++ [name field];
                     cacheTTL := cacheTTL settings;
                     analyzeValues := analyzeValues settings;
                     showProgress := showProgress settings |}
                  (clearCache s) (Read app callback now now')
                  (Forall_nil _)) as H.
    simpl in H. rewrite Forall_forall in H. apply (H r Hr).
    simpl. apply in_or_app. right. left. now symmetry.
Qed.

(** ** Runs of events *)

Lemma reachable_run ok settings es : forall s,
  ok settings -> reachableUnder ok s -> reachableUnder ok (run settings s es).
Proof.
  unfold run. induction es as [|e es IH]; simpl; intros s Hok Hs; [exact Hs|].
  apply IH; [exact Hok|]. now apply reachable_step.
Qed.

(** C2: a rebuild over A.md and B.md, both declaring [x], then the rename of
    B.md to B.txt (dropped by the extension test, so B.md stays an owner),
    then the rename of A.md to B.md, reach a state whose record [x] has count
    2 and the path B.md twice in its owning list. *)
Theorem rename_duplicates_owner :
  let s := run DEFAULT_SETTINGS initialState
             [Read xAB false 1000 1000;
              Renamed (AFile {| path := "B.txt"; extension := "txt" |}) "B.md";
              Renamed (AFile (mdFile "B.md")) "A.md"] in
  reachableUnder (fun _ => True) s /\
  map (fun r => (name r, count r, map path (files r))) (cache s) =
    [("x", 2, ["B.md"; "B.md"])] /\
  ~ Forall distinctOwners (cache s).
Proof.
  cbv zeta. split; [|split].
  - apply reachable_run; [exact I | constructor].
  - reflexivity.
  - remember (cache _) as c eqn:Ec. vm_compute in Ec. subst c.
    intros H. inversion H as [|r l Hr _]; subst.
    unfold distinctOwners in Hr. simpl in Hr.
    inversion Hr as [|p l' Hn _]; subst. apply Hn. now left.
Qed.

(** C1: with value analysis on, a rebuild over A.md ([status: done]) followed
    by the creation of B.md ([status: done]) leaves the record [status] with
    the statistics of A.md alone, where a rebuild over both documents counts
    the value twice; name, count and owners agree. *)
Theorem incremental_create_misses_value_stats :
  let s0 := after (getFields statusA analysing false 1000 1000 initialState) in
  let incremental :=
    cache (updateCacheOnCreate statusAB analysing 2000 (AFile (mdFile "B.md")) s0) in
  let rebuilt :=
    returned (getFields statusAB analysing false 2000 2000 initialState) in
  map valueStats incremental =
    [Some {| unique := 1; topValues := [("done", 1)];
             typeDistribution := [("string", 1)] |}] /\
  map valueStats rebuilt =
    [Some {| unique := 1; topValues := [("done", 2)];
             typeDistribution := [("string", 2)] |}] /\
  map (fun r => (name r, count r, files r)) incremental =
  map (fun r => (name r, count r, files r)) rebuilt.
Proof. repeat split. Qed.

(** A rename to another extension is dropped: the old path stays an owner
    although the collection no longer holds that markdown document. *)
Lemma rename_to_other_extension_leaves_owner :
  let s0 := after (getFields statusA DEFAULT_SETTINGS false 1000 1000 initialState) in
  let renamed := AFile {| path := "A.txt"; extension := "txt" |} in
  cache (updateCacheOnRename renamed "A.md" s0) = cache s0 /\
  map (fun r => map path (files r)) (cache s0) = [["A.md"]] /\
  returned (getFields (vaultOf []) DEFAULT_SETTINGS false 1000 1000 initialState)
    = [].
Proof. repeat split. Qed.

(** ** Instances *)

Lemma ignored_field_never_returned_witness :
  let s := handle ignoringTags initialState (Read vaultABC false 1000 1000) in
  let r := {| name := "author.name"; count := 1; files := [mdFile "A.md"];
              valueStats := None |} in
  reachable ["tags"] s /\
  In r (returned (getFields vaultABC ignoringTags false 2000 2000 s)) /\
  ~ In (name r) ["tags"].
Proof.
  cbv zeta.
  assert (reachable ["tags"]
            (handle ignoringTags initialState (Read vaultABC false 1000 1000)))
    as Hs by (apply reachable_step; [constructor | reflexivity]).
  assert (In {| name := "author.name"; count := 1; files := [mdFile "A.md"];
                valueStats := None |}
             (returned (getFields vaultABC ignoringTags false 2000 2000
                (handle ignoringTags initialState
                   (Read vaultABC false 1000 1000))))) as Hin
    by (vm_compute; left; reflexivity).
  split; [exact Hs|]. split; [exact Hin|].
  exact (ignored_field_never_returned ["tags"] _ vaultABC ignoringTags false
           2000 2000 _ Hs eq_refl Hin).
Defined.



(** X3: on a cache miss (empty cache, or TTL elapsed) over a collection in
    which no document declares a field under a name inherited from
    [Object.prototype], [getFields] resolves, looks up every markdown file,
    and stores what it returns with the clock read at the end; what it
    returns is sorted by count descending and is an index with one record
    per name, each with its count equal to the number of its owners, no
    owner twice and at least one owner, in which a path owns a field exactly
    when the markdown document at that path declares it (a flattened key of
    its header that is not ignored). *)
Theorem rebuild_index_matches_collection app settings callback now now' s :
  ordinaryNames app settings = true ->
  cache s = [] \/ cacheTTL settings * 1000 <= now - lastUpdate s ->
  rejected (getFields app settings callback now now' s) = false /\
  scanned (getFields app settings callback now now' s) = getMarkdownFiles app /\
  after (getFields app settings callback now now' s) =
    {| cache := returned (getFields app settings callback now now' s);
       lastUpdate := now' |} /\
  descending (returned (getFields app settings callback now now' s)) /\
  NoDup (map name (returned (getFields app settings callback now now' s))) /\
  Forall (fun r => counted r /\ distinctOwners r /\ files r <> [])
         (returned (getFields app settings callback now now' s)) /\
  forall key p,
    owner (returned (getFields app settings callback now now' s)) key p <->
    declares app settings key p.
Proof.
  intros Hord Hmiss. rewrite getFields_rebuilds by assumption. simpl.
  destruct (rebuild_represents app settings callback Hord)
    as [[Hn [Hc [Hd He]]] Ho].
  split; [reflexivity|]. split; [reflexivity|]. split; [reflexivity|].
  split; [unfold rebuiltFields, descending;
          apply (jsSort_Sorted count byCountDesc); reflexivity|].
  split; [exact Hn|]. split; [|exact Ho].
  rewrite Forall_forall in *. auto.
Qed.

(** ** Instances of the further properties *)

Lemma count_is_owner_total_witness :
  reachableUnder (fun _ => True)
    (run DEFAULT_SETTINGS initialState
       [Read vaultABC false 1000 1000; Deleted (AFile (mdFile "B.md"))]) /\
  Forall counted
    (cache (run DEFAULT_SETTINGS initialState
              [Read vaultABC false 1000 1000; Deleted (AFile (mdFile "B.md"))])).
Proof.
  assert (reachableUnder (fun _ => True)
            (run DEFAULT_SETTINGS initialState
               [Read vaultABC false 1000 1000;
                Deleted (AFile (mdFile "B.md"))])) as H
    by (apply reachable_run; [exact I | constructor]).
  split; [exact H | exact (count_is_owner_total _ H)].
Defined.

Lemma handle_distinct_witness :
  Forall (fun r => ~ In "A2.md" (map path (files r))) (cache populatedABC) /\
  Forall distinctOwners (cache populatedABC) /\
  Forall distinctOwners
    (cache (handle DEFAULT_SETTINGS populatedABC
              (Renamed (AFile (mdFile "A2.md")) "A.md"))).
Proof.
  assert (Forall (fun r => ~ In "A2.md" (map path (files r)))
            (cache populatedABC)) as Hfresh.
  { repeat constructor; simpl; intuition discriminate. }
  assert (Forall distinctOwners (cache populatedABC)) as Hd.
  { repeat constructor; simpl; intuition discriminate. }
  split; [exact Hfresh|]. split; [exact Hd|].
  apply (handle_distinct DEFAULT_SETTINGS populatedABC
           (Renamed (AFile (mdFile "A2.md")) "A.md")); [|exact Hd].
  intros f oldPath E. injection E as <- _. exact Hfresh.
Defined.

Lemma rebuild_index_matches_collection_witness :
  ordinaryNames vaultABC DEFAULT_SETTINGS = true /\
  (cache initialState = [] \/
   cacheTTL DEFAULT_SETTINGS * 1000 <= 1000 - lastUpdate initialState) /\
  scanned (getFields vaultABC DEFAULT_SETTINGS false 1000 1000 initialState) =
    getMarkdownFiles vaultABC.
Proof.
  assert (cache initialState = [] \/
          cacheTTL DEFAULT_SETTINGS * 1000 <= 1000 - lastUpdate initialState)
    as H by (left; reflexivity).
  split; [reflexivity|]. split; [exact H|].
  exact (proj1 (proj2 (rebuild_index_matches_collection vaultABC
                         DEFAULT_SETTINGS false 1000 1000 initialState
                         eq_refl H))).
Defined.


Lemma rebuild_is_sorted_addition_witness :
  ordinaryNames xyAB analysing = true /\
  stringNames xyAB analysing = true /\
  (cache initialState = [] \/
   cacheTTL DEFAULT_SETTINGS * 1000 <= 1000 - lastUpdate initialState) /\
  sameShape (returned (getFields xyAB analysing false 1000 1000 initialState))
            (jsSort byCountDesc
               (cache (addAll xyAB analysing 0 (getMarkdownFiles xyAB)
                         initialState))).
Proof.
  assert (cache initialState = [] \/
          cacheTTL DEFAULT_SETTINGS * 1000 <= 1000 - lastUpdate initialState)
    as H by (left; reflexivity).
  split; [reflexivity|]. split; [reflexivity|]. split; [exact H|].
  exact (rebuild_is_sorted_addition xyAB analysing false 1000 1000
           initialState 0 eq_refl eq_refl H).
Defined.

Lemma progress_reported_per_document_witness :
  ordinaryNames xA_C DEFAULT_SETTINGS = true /\
  showProgress DEFAULT_SETTINGS = true /\
  progress (getFields xA_C DEFAULT_SETTINGS true 1000 1000 initialState) =
    [percentage 1 2; percentage 2 2].
Proof.
  split; [reflexivity|]. split; [reflexivity|].
  exact (proj1 (progress_reported_per_document xA_C DEFAULT_SETTINGS 1000 1000
                  initialState eq_refl eq_refl (or_introl eq_refl))).
Defined.

Lemma getFields_result_ignores_progress_witness :
  ignoreFields DEFAULT_SETTINGS = ignoreFields quiet /\
  analyzeValues DEFAULT_SETTINGS = analyzeValues quiet /\
  cacheTTL DEFAULT_SETTINGS = cacheTTL quiet /\
  returned (getFields xA_C DEFAULT_SETTINGS true 1000 1000 initialState) =
  returned (getFields xA_C quiet false 1000 1000 initialState).
Proof.
  split; [reflexivity|]. split; [reflexivity|]. split; [reflexivity|].
  exact (proj1 (getFields_result_ignores_progress xA_C DEFAULT_SETTINGS quiet
                  true false 1000 1000 initialState eq_refl eq_refl eq_refl)).
Defined.

Lemma value_analysis_changes_statistics_only_witness :
  ignoreFields DEFAULT_SETTINGS = ignoreFields analysing /\
  cacheTTL DEFAULT_SETTINGS = cacheTTL analysing /\
  sameShape
    (returned (getFields statusAB DEFAULT_SETTINGS false 1000 1000 initialState))
    (returned (getFields statusAB analysing false 1000 1000 initialState)).
Proof.
  split; [reflexivity|]. split; [reflexivity|].
  exact (value_analysis_changes_statistics_only statusAB DEFAULT_SETTINGS
           analysing false false 1000 1000 initialState eq_refl eq_refl).
Defined.

Lemma flattenFrontmatter_dotted_paths_witness :
  nestedKeysNonEmpty bobHeader /\
  flattenFrontmatter bobHeader EmptyString = flatten_spec bobHeader.
Proof.
  assert (nestedKeysNonEmpty bobHeader) as H
    by (simpl; repeat split; discriminate).
  split; [exact H | exact (flattenFrontmatter_dotted_paths bobHeader H)].
Defined.

Lemma getNestedValue_of_flattened_key_witness :
  plainKeys bobHeader /\
  nestedKeysNonEmpty bobHeader /\
  In ("author.name", VString "Bob") (flattenFrontmatter bobHeader EmptyString) /\
  getNestedValue bobHeader "author.name" = Some (VString "Bob").
Proof.
  assert (plainKeys bobHeader) as Hp
    by (simpl; repeat split; intuition discriminate).
  assert (nestedKeysNonEmpty bobHeader) as Hn
    by (simpl; repeat split; discriminate).
  assert (In ("author.name", VString "Bob")
             (flattenFrontmatter bobHeader EmptyString)) as Hin
    by (simpl; right; left; reflexivity).
  split; [exact Hp|]. split; [exact Hn|]. split; [exact Hin|].
  exact (getNestedValue_of_flattened_key bobHeader _ _ Hp Hn Hin).
Defined.

Lemma rebuild_statistics_sound_witness :
  analyzeValues analysing = true /\
  Forall (fun r => statsSound r /\ topTrimmed r)
    (returned (getFields statusVault analysing false 1000 1000 initialState)).
Proof.
  split; [reflexivity|].
  exact (rebuild_statistics_sound statusVault analysing false 1000 1000
           initialState eq_refl (or_introl eq_refl)).
Defined.

Lemma rebuild_without_analysis_has_no_statistics_witness :
  analyzeValues DEFAULT_SETTINGS = false /\
  Forall (fun r => valueStats r = None)
    (returned (getFields statusVault DEFAULT_SETTINGS false 1000 1000
                 initialState)).
Proof.
  split; [reflexivity|].
  exact (rebuild_without_analysis_has_no_statistics statusVault
           DEFAULT_SETTINGS false 1000 1000 initialState eq_refl
           (or_introl eq_refl)).
Defined.

Lemma pages_partition_files_witness :
  0 < 2 /\
  List.concat [paginatedFiles fiveFiles 0 2; paginatedFiles fiveFiles 1 2;
               paginatedFiles fiveFiles 2 2] = fiveFiles.
Proof.
  split; [reflexivity|].
  exact (proj1 (pages_partition_files fiveFiles 2 eq_refl)).
Defined.

Lemma pagination_stays_on_a_page_witness :
  0 < 2 /\ fiveFiles <> [] /\
  paginatedFiles fiveFiles
    (fold_left (press 5 2) [NextButton; NextButton; NextButton; PreviousButton] 0)
    2 <> [].
Proof.
  assert (fiveFiles <> []) as H by discriminate.
  split; [reflexivity|]. split; [exact H|].
  exact (proj2 (pagination_stays_on_a_page fiveFiles 2
                  [NextButton; NextButton; NextButton; PreviousButton]
                  eq_refl H)).
Defined.

Lemma created_document_joins_its_fields_witness :
  extension (mdFile "B.md") = "md" /\
  (owner (cache (updateCacheOnCreate statusAB DEFAULT_SETTINGS 2000
                   (AFile (mdFile "B.md"))
                   (after (getFields statusA DEFAULT_SETTINGS false 1000 1000
                             initialState))))
         "status" "B.md" <->
   owner (cache (after (getFields statusA DEFAULT_SETTINGS false 1000 1000
                          initialState))) "status" "B.md" \/
   ("B.md" = path (mdFile "B.md") /\
    In "status" (keysOf statusAB DEFAULT_SETTINGS (mdFile "B.md")))).
Proof.
  split; [reflexivity|].
  exact (created_document_joins_its_fields statusAB DEFAULT_SETTINGS 2000
           (mdFile "B.md") _ "status" "B.md" eq_refl).
Defined.

Lemma changed_document_owns_its_current_fields_witness :
  extension (mdFile "A.md") = "md" /\
  (owner (cache (updateCacheForFile statusA DEFAULT_SETTINGS 2000
                   (mdFile "A.md") populatedABC)) "tags" "A.md" <->
   (owner (cache populatedABC) "tags" "A.md" /\ "A.md" <> path (mdFile "A.md")) \/
   ("A.md" = path (mdFile "A.md") /\
    In "tags" (keysOf statusA DEFAULT_SETTINGS (mdFile "A.md")))).
Proof.
  split; [reflexivity|].
  exact (changed_document_owns_its_current_fields statusA DEFAULT_SETTINGS 2000
           (mdFile "A.md") populatedABC "tags" "A.md" eq_refl).
Defined.

Lemma deleted_document_owns_nothing_witness :
  extension (mdFile "B.md") = "md" /\
  Forall (fun r => 0 < count r)
    (cache (updateCacheOnDelete (AFile (mdFile "B.md")) populatedABC)).
Proof.
  split; [reflexivity|].
  exact (proj1 (proj2 (deleted_document_owns_nothing (mdFile "B.md")
                         populatedABC eq_refl))).
Defined.

Lemma renamed_document_keeps_its_fields_witness :
  extension (mdFile "A2.md") = "md" /\
  map count (cache (updateCacheOnRename (AFile (mdFile "A2.md")) "A.md"
                      populatedABC)) =
  map count (cache populatedABC).
Proof.
  split; [reflexivity|].
  exact (proj1 (proj2 (proj2 (renamed_document_keeps_its_fields
                                (mdFile "A2.md") "A.md" populatedABC eq_refl)))).
Defined.

Lemma create_before_first_read_is_served_witness :
  cache initialState = [] /\
  extension (mdFile "B.md") = "md" /\
  In "status" (keysOf statusAB DEFAULT_SETTINGS (mdFile "B.md")) /\
  2000 - 2000 < cacheTTL DEFAULT_SETTINGS * 1000 /\
  scanned (getFields statusAB DEFAULT_SETTINGS false 2000 2000
             (updateCacheOnCreate statusAB DEFAULT_SETTINGS 2000
                (AFile (mdFile "B.md")) initialState)) = [].
Proof.
  assert (In "status" (keysOf statusAB DEFAULT_SETTINGS (mdFile "B.md"))) as Hk
    by (left; reflexivity).
  split; [reflexivity|]. split; [reflexivity|]. split; [exact Hk|].
  split; [reflexivity|].
  exact (proj1 (create_before_first_read_is_served statusAB DEFAULT_SETTINGS
                  2000 (mdFile "B.md") initialState statusAB false 2000 2000
                  "status" eq_refl eq_refl Hk eq_refl)).
Defined.

Lemma getFields_rejects_on_inherited_name_witness :
  ordinaryNames constructorVault DEFAULT_SETTINGS = false /\
  (cache initialState = [] \/
   cacheTTL DEFAULT_SETTINGS * 1000 <= 1000 - lastUpdate initialState) /\
  after (getFields constructorVault DEFAULT_SETTINGS true 1000 1001 initialState)
    = initialState.
Proof.
  assert (cache initialState = [] \/
          cacheTTL DEFAULT_SETTINGS * 1000 <= 1000 - lastUpdate initialState)
    as H by (left; reflexivity).
  split; [reflexivity|]. split; [exact H|].
  exact (proj1 (proj2 (proj2 (getFields_rejects_on_inherited_name
                                constructorVault DEFAULT_SETTINGS true 1000 1001
                                initialState eq_refl H)))).
Defined.

Lemma empty_result_not_cached_witness :
  rejected (getFields onlyC DEFAULT_SETTINGS false 1000 1000 initialState)
    = false /\
  returned (getFields onlyC DEFAULT_SETTINGS false 1000 1000 initialState) = [] /\
  ordinaryNames xA_C DEFAULT_SETTINGS = true /\
  scanned (getFields xA_C DEFAULT_SETTINGS false 1001 1001
             (after (getFields onlyC DEFAULT_SETTINGS false 1000 1000
                       initialState))) =
  getMarkdownFiles xA_C.
Proof.
  split; [reflexivity|]. split; [reflexivity|]. split; [reflexivity|].
  exact (proj1 (empty_result_not_cached onlyC DEFAULT_SETTINGS false 1000 1000
                  initialState xA_C false 1001 1001 eq_refl eq_refl eq_refl)).
Defined.
